(** * Verification of torch_TLR.py: batched censored (Tobit-type) regression
    under a truncated-normal noise model.

    The Python program computes on IEEE tensors.  The embedding keeps the
    special values the program tests for ([NaN], [-inf], [+inf]) as explicit
    constructors with their IEEE propagation rules and takes finite values as
    exact real numbers: rounding, underflow and overflow of finite values are
    outside the model.  Tensors are flat lists; boolean-mask indexing
    ([t[mask]]) and boolean-mask assignment ([t[mask] = v]) are modelled as
    written. *)

From Stdlib Require Import Reals Lra List Bool ZArith Lia String.
Import ListNotations.
Open Scope R_scope.

(** ** Scalars: extended reals with NaN *)

Inductive scalar : Type :=
| NaN
| NInf
| PInf
| Fin (r : R).

Definition Rltb (x y : R) : bool := if Rlt_dec x y then true else false.
Definition Rleb (x y : R) : bool := if Rle_dec x y then true else false.
Definition Reqb (x y : R) : bool := if Req_dec_T x y then true else false.

(** Comparisons are false as soon as one side is NaN. *)
Definition xlt (a b : scalar) : bool :=
  match a, b with
  | NaN, _ | _, NaN => false
  | NInf, NInf => false
  | NInf, _ => true
  | PInf, _ => false
  | Fin _, NInf => false
  | Fin _, PInf => true
  | Fin x, Fin y => Rltb x y
  end.

Definition xle (a b : scalar) : bool :=
  match a, b with
  | NaN, _ | _, NaN => false
  | NInf, _ => true
  | PInf, PInf => true
  | PInf, _ => false
  | Fin _, NInf => false
  | Fin _, PInf => true
  | Fin x, Fin y => Rleb x y
  end.

Definition xgt (a b : scalar) : bool := xlt b a.
Definition xge (a b : scalar) : bool := xle b a.

Definition xisnan (a : scalar) : bool :=
  match a with NaN => true | _ => false end.

Definition xneg (a : scalar) : scalar :=
  match a with
  | NaN => NaN
  | NInf => PInf
  | PInf => NInf
  | Fin x => Fin (- x)
  end.

Definition xabs (a : scalar) : scalar :=
  match a with
  | NaN => NaN
  | NInf | PInf => PInf
  | Fin x => Fin (Rabs x)
  end.

Definition xadd (a b : scalar) : scalar :=
  match a, b with
  | NaN, _ | _, NaN => NaN
  | PInf, NInf | NInf, PInf => NaN
  | PInf, _ | _, PInf => PInf
  | NInf, _ | _, NInf => NInf
  | Fin x, Fin y => Fin (x + y)
  end.

Definition xsub (a b : scalar) : scalar := xadd a (xneg b).

(** Sign of an infinite product or quotient; a finite zero counts as [+0]. *)
Definition inf_of_sign (positive : bool) : scalar :=
  if positive then PInf else NInf.

Definition xmul (a b : scalar) : scalar :=
  match a, b with
  | NaN, _ | _, NaN => NaN
  | Fin x, Fin y => Fin (x * y)
  | PInf, PInf | NInf, NInf => PInf
  | PInf, NInf | NInf, PInf => NInf
  | PInf, Fin y | Fin y, PInf =>
      if Reqb y 0 then NaN else inf_of_sign (Rltb 0 y)
  | NInf, Fin y | Fin y, NInf =>
      if Reqb y 0 then NaN else inf_of_sign (Rltb y 0)
  end.

Definition xdiv (a b : scalar) : scalar :=
  match a, b with
  | NaN, _ | _, NaN => NaN
  | Fin x, Fin y =>
      if Reqb y 0
      then (if Reqb x 0 then NaN else inf_of_sign (Rltb 0 x))
      else Fin (x / y)
  | Fin _, (PInf | NInf) => Fin 0
  | (PInf | NInf), (PInf | NInf) => NaN
  | PInf, Fin y => inf_of_sign (Rleb 0 y)
  | NInf, Fin y => inf_of_sign (Rltb y 0)
  end.

(** [torch.max(x, y)], elementwise: NaN propagates. *)
Definition xmax (a b : scalar) : scalar :=
  match a, b with
  | NaN, _ | _, NaN => NaN
  | _, _ => if xle a b then b else a
  end.

Definition xexp (a : scalar) : scalar :=
  match a with
  | NaN => NaN
  | NInf => Fin 0
  | PInf => PInf
  | Fin x => Fin (exp x)
  end.

Definition xlog (a : scalar) : scalar :=
  match a with
  | NaN | NInf => NaN
  | PInf => PInf
  | Fin x =>
      if Rltb x 0 then NaN else if Reqb x 0 then NInf else Fin (ln x)
  end.

Definition xlog1p (a : scalar) : scalar :=
  match a with
  | NaN | NInf => NaN
  | PInf => PInf
  | Fin x =>
      if Rltb x (-1) then NaN
      else if Reqb x (-1) then NInf else Fin (ln (1 + x))
  end.

(** ** The standard normal law *)

(** Unnormalised density [exp (- t^2 / 2)]. *)
Definition gauss (t : R) : R := exp (- (t * t) / 2).

Lemma gauss_continuity : continuity gauss.
Proof.
  unfold gauss. reg.
Qed.

Lemma gauss_integrable (a b : R) : Riemann_integrable gauss a b.
Proof.
  destruct (Rle_dec a b) as [Hab | Hab].
  - apply continuity_implies_RiemannInt; [exact Hab|].
    intros x _. apply gauss_continuity.
  - apply RiemannInt_P1. apply continuity_implies_RiemannInt; [lra|].
    intros x _. apply gauss_continuity.
Qed.

(** The standard normal cumulative distribution function
    [Phi x = 1/2 + (1 / sqrt (2 pi)) * int_0^x exp (- t^2 / 2) dt]. *)
Definition Phi (x : R) : R :=
  1 / 2 + / sqrt (2 * PI) * RiemannInt (gauss_integrable 0 x).

(** [dist.Normal(0, 1).cdf]. *)
Definition cdf (a : scalar) : scalar :=
  match a with
  | NaN => NaN
  | NInf => Fin 0
  | PInf => Fin 1
  | Fin x => Fin (Phi x)
  end.

(** [gp.log_normal_cdf]: the stable logarithm of the standard normal CDF.
    It is finite at every finite argument (that is what "stable" buys).
    At [-inf] the library evaluates its rational approximation of the
    tail on infinite values and answers NaN; at [+inf] it answers
    [log 1 = 0]. *)
Definition log_normal_cdf (a : scalar) : scalar :=
  match a with
  | NaN => NaN
  | NInf => NaN
  | PInf => Fin 0
  | Fin x => Fin (ln (Phi x))
  end.

(** [dist.Normal(0, 1).log_prob]:
    [-(v - 0)^2 / (2 * 1) - log 1 - log (sqrt (2 pi))]. *)
Definition snd_log_prob1 (v : scalar) : scalar :=
  match v with
  | NaN => NaN
  | NInf | PInf => NInf
  | Fin x => Fin (- (x * x) / 2 - ln (sqrt (2 * PI)))
  end.

(** ** Tensors and boolean masks *)

Definition tensor := list scalar.
Definition mask := list bool.

Fixpoint zip_with {A B C : Type} (f : A -> B -> C) (l1 : list A) (l2 : list B)
  : list C :=
  match l1, l2 with
  | x :: l1', y :: l2' => f x y :: zip_with f l1' l2'
  | _, _ => []
  end.

(** [t[m]]: the entries of [t] at the positions where [m] holds, in order. *)
Fixpoint select {A : Type} (m : mask) (t : list A) : list A :=
  match m, t with
  | c :: m', x :: t' => if c then x :: select m' t' else select m' t'
  | _, _ => []
  end.

(** [t[m] = vals]: the entries of [vals] are written, in order, to the
    positions of [t] where [m] holds. *)
Fixpoint scatter {A : Type} (m : mask) (vals : list A) (t : list A) : list A :=
  match m, t with
  | c :: m', x :: t' =>
      (if c then hd x vals else x)
        :: scatter m' (if c then tl vals else vals) t'
  | _, _ => t
  end.

(** [t[m] = v] for a Python scalar [v]. *)
Definition fill {A : Type} (m : mask) (v : A) (t : list A) : list A :=
  zip_with (fun (c : bool) x => if c then v else x) m t.

Definition full_like (t : tensor) (v : scalar) : tensor := map (fun _ => v) t.
Definition zeros_like (t : tensor) : tensor := full_like t (Fin 0).

Definition logical_and : mask -> mask -> mask := zip_with andb.
Definition logical_or : mask -> mask -> mask := zip_with orb.
Definition logical_not : mask -> mask := map negb.

(** Comparison of a tensor with a Python number, and of two tensors. *)
Definition t_le_c (t : tensor) (c : R) : mask := map (fun x => xle x (Fin c)) t.
Definition t_lt_c (t : tensor) (c : R) : mask := map (fun x => xlt x (Fin c)) t.
Definition t_ge_c (t : tensor) (c : R) : mask := map (fun x => xge x (Fin c)) t.
Definition t_gt_c (t : tensor) (c : R) : mask := map (fun x => xgt x (Fin c)) t.
Definition t_lt : tensor -> tensor -> mask := zip_with xlt.
Definition t_gt : tensor -> tensor -> mask := zip_with xgt.
Definition t_ge : tensor -> tensor -> mask := zip_with xge.
Definition t_isnan : tensor -> mask := map xisnan.

Definition t_neg : tensor -> tensor := map xneg.
Definition t_abs : tensor -> tensor := map xabs.
Definition t_exp : tensor -> tensor := map xexp.
Definition t_log : tensor -> tensor := map xlog.
Definition t_log1p : tensor -> tensor := map xlog1p.
Definition t_add : tensor -> tensor -> tensor := zip_with xadd.
Definition t_sub : tensor -> tensor -> tensor := zip_with xsub.
Definition t_div : tensor -> tensor -> tensor := zip_with xdiv.
Definition t_max : tensor -> tensor -> tensor := zip_with xmax.
Definition t_sum (t : tensor) : scalar := fold_left xadd t (Fin 0).

Module TruncatedNormal.

Definition snd_cdf : tensor -> tensor := map cdf.
Definition snd_log_prob : tensor -> tensor := map snd_log_prob1.
Definition gp_log_normal_cdf : tensor -> tensor := map log_normal_cdf.

(** The right-hand side of line 28-29 (mask [ids2]). *)
Definition upper_tail (a b : tensor) : tensor :=
  t_add (gp_log_normal_cdf (t_neg b))
    (t_log1p (t_neg (t_exp (t_sub (gp_log_normal_cdf (t_neg a))
                                  (gp_log_normal_cdf (t_neg b)))))).

(** The right-hand side of line 32-33 (mask [ids3]). *)
Definition lower_tail (a b : tensor) : tensor :=
  t_add (gp_log_normal_cdf (t_neg a))
    (t_log1p (t_neg (t_exp (t_sub (gp_log_normal_cdf (t_neg b))
                                  (gp_log_normal_cdf (t_neg a)))))).

(** The tensor [res] after lines 17-24: the direct regime. *)
Definition direct_stage (a b : tensor) : tensor :=
  let res := full_like a NaN in
  let ids1 := logical_and (t_le_c a 30) (t_ge_c b (-30)) in
  let ids11 := logical_and ids1 (t_gt_c a 0) in
  let ids12 := logical_and ids1 (t_le_c a 0) in
  let res :=
    scatter ids11
      (t_sub (snd_cdf (t_neg (select ids11 a)))
             (snd_cdf (t_neg (select ids11 b)))) res in
  let res :=
    scatter ids12
      (t_sub (snd_cdf (select ids12 b)) (snd_cdf (select ids12 a))) res in
  let nn := logical_not (t_isnan res) in
  let res :=
    scatter nn (t_max (select nn res) (zeros_like (select nn res))) res in
  let pos := t_gt_c res 0 in
  scatter pos (t_log (select pos res)) res.

(** The mask [ids2] of line 26-27, from the tensor [res] of line 24. *)
Definition ids2_of (res a b : tensor) : mask :=
  logical_and (t_le_c res 0)
    (logical_or (t_lt_c b 0) (t_ge (t_abs a) (t_abs b))).

Definition get_logdelta (a b : tensor) : tensor :=
  let res := direct_stage a b in
  let ids2 := ids2_of res a b in
  let res := scatter ids2 (upper_tail (select ids2 a) (select ids2 b)) res in
  let ids3 := logical_not ids2 in
  scatter ids3 (lower_tail (select ids3 a) (select ids3 b)) res.

Definition log_prob (val a b loc scale : tensor) : tensor :=
  let val_standard := t_div (t_sub val loc) scale in
  let res :=
    t_sub (t_sub (snd_log_prob val_standard) (get_logdelta a b))
          (t_log scale) in
  fill (logical_or (t_lt val_standard a) (t_gt val_standard b)) NInf res.

End TruncatedNormal.

(** ** The same computations on one element *)

Definition upper_tail1 (a b : scalar) : scalar :=
  xadd (log_normal_cdf (xneg b))
    (xlog1p (xneg (xexp (xsub (log_normal_cdf (xneg a))
                              (log_normal_cdf (xneg b)))))).

Definition lower_tail1 (a b : scalar) : scalar :=
  xadd (log_normal_cdf (xneg a))
    (xlog1p (xneg (xexp (xsub (log_normal_cdf (xneg b))
                              (log_normal_cdf (xneg a)))))).

(** Eligibility for the direct regime (mask [ids1]). *)
Definition ids1_1 (a b : scalar) : bool :=
  xle a (Fin 30) && xge b (Fin (-30)).

(** The probability the direct regime computes, after clamping (line 23);
    NaN where the element is not eligible. *)
Definition direct_prob1 (a b : scalar) : scalar :=
  let res := NaN in
  let res :=
    if ids1_1 a b && xgt a (Fin 0)
    then xsub (cdf (xneg a)) (cdf (xneg b)) else res in
  let res :=
    if ids1_1 a b && xle a (Fin 0)
    then xsub (cdf b) (cdf a) else res in
  if negb (xisnan res) then xmax res (Fin 0) else res.

(** The entry of [res] after line 24. *)
Definition direct_stage1 (a b : scalar) : scalar :=
  let res := direct_prob1 a b in
  if xgt res (Fin 0) then xlog res else res.

Definition ids2_1 (a b : scalar) : bool :=
  xle (direct_stage1 a b) (Fin 0)
  && (xlt b (Fin 0) || xge (xabs a) (xabs b)).

Definition get_logdelta1 (a b : scalar) : scalar :=
  let res := direct_stage1 a b in
  let res := if ids2_1 a b then upper_tail1 a b else res in
  if negb (ids2_1 a b) then lower_tail1 a b else res.

Definition log_prob1 (val a b loc scale : scalar) : scalar :=
  let val_standard := xdiv (xsub val loc) scale in
  let res :=
    xsub (xsub (snd_log_prob1 val_standard) (get_logdelta1 a b)) (xlog scale) in
  if xlt val_standard a || xgt val_standard b then NInf else res.

(** ** Python and torch values met by the model constructor *)

(** A Python number as it sits in a list handed to [torch.tensor]: the
    literal [1] is a Python [int], a numpy result is a float. *)
Inductive pynum : Type :=
| PyInt (n : Z)
| NpFloat (x : scalar).

Definition is_pyint (p : pynum) : bool :=
  match p with PyInt _ => true | NpFloat _ => false end.

Definition pynum_int (p : pynum) : Z :=
  match p with PyInt n => n | NpFloat _ => 0%Z end.

Definition pynum_float (p : pynum) : scalar :=
  match p with PyInt n => Fin (IZR n) | NpFloat x => x end.

(** A one-dimensional torch tensor with its inferred dtype. *)
Inductive torch_tensor : Type :=
| IntTensor (l : list Z)
| FloatTensor (l : tensor).

(** [torch.tensor(l)]: a non-empty list of Python ints gives an integer
    tensor; the empty list and any list with a float give a float tensor. *)
Definition torch_tensor_of (l : list pynum) : torch_tensor :=
  match l with
  | [] => FloatTensor []
  | _ :: _ =>
      if forallb is_pyint l then IntTensor (map pynum_int l)
      else FloatTensor (map pynum_float l)
  end.

Inductive exception : Type :=
| RuntimeError (msg : string).

Inductive result (A : Type) : Type :=
| Ok (a : A)
| Raise (e : exception).
Arguments Ok {A} a.
Arguments Raise {A} e.

Definition requires_grad_message : string :=
  "Only Tensors of floating point and complex dtype can require gradients".

(** [nn.Parameter(t)] asks for gradients, which torch refuses on an
    integer tensor. *)
Definition nn_Parameter (t : torch_tensor) : result tensor :=
  match t with
  | FloatTensor l => Ok l
  | IntTensor _ => Raise (RuntimeError requires_grad_message)
  end.

Definition xeq (a b : scalar) : bool :=
  match a, b with
  | NInf, NInf | PInf, PInf => true
  | Fin x, Fin y => Reqb x y
  | _, _ => false
  end.

(** [torch.where(c, 1, 0)]. *)
Definition where_1_0 (c : mask) : list Z :=
  map (fun b : bool => if b then 1%Z else 0%Z) c.

Definition eq_1 (t : list Z) : mask := map (fun n => Z.eqb n 1) t.

Definition dot (u v : tensor) : scalar := t_sum (zip_with xmul u v).

(** Matrix-vector product [XX @ bb], [XX] given by its rows. *)
Definition matvec (XX : list tensor) (bb : tensor) : tensor :=
  map (fun row => dot row bb) XX.

Definition from_option {A : Type} (d : A) (o : option A) : A :=
  match o with Some v => v | None => d end.

Module TLR.

Record t : Type := mk {
  y : list tensor;              (* batch x n *)
  X : list (list tensor);       (* batch x n x k *)
  z : list tensor;              (* batch x n, entries -1, 0, 1 *)
  l_thred : scalar;
  r_thred : scalar;
  init_beta : list tensor;
  init_sigma : list pynum;
  beta : list tensor;           (* batch x k, trainable *)
  sigma : tensor                (* batch, trainable *)
}.

(** STEP 1 of [__init__] on one row of [y] (lines 47-51). *)
Definition indicator (l_thred r_thred : option scalar) (yy : tensor)
  : tensor :=
  let z := map (fun _ => Fin 0) yy in
  let z :=
    match l_thred with
    | Some l => fill (map (fun v => xle v l) yy) (Fin (-1)) z
    | None => z
    end in
  match r_thred with
  | Some r => fill (map (fun v => xge v r) yy) (Fin 1) z
  | None => z
  end.

(** [mid_z] of line 52, one row. *)
Definition mid_z (zz : tensor) : list Z :=
  where_1_0 (map (fun v => xeq v (Fin 0)) zz).

Section Init.

(** [np.linalg.lstsq(XX, yy, rcond=None)[0]]: numpy's least-squares
    solver, an external collaborator. *)
Variable lstsq : list tensor -> tensor -> tensor.

(** The body of the loop of lines 56-61, for one batch element. *)
Definition init_element (yy : tensor) (XX : list tensor) (zz : list Z)
  : tensor * pynum :=
  let yy := select (eq_1 zz) yy in
  let XX := select (eq_1 zz) XX in
  let bb := lstsq XX yy in
  let ss :=
    if negb (Nat.eqb (List.length yy) 0)
    then
      NpFloat (xdiv (dot (t_sub yy (matvec XX bb)) (t_sub yy (matvec XX bb)))
                    (Fin (INR (List.length yy))))
    else PyInt 1 in
  (bb, ss).

Fixpoint init_loop (y : list tensor) (X : list (list tensor))
  (mid : list (list Z)) : list (tensor * pynum) :=
  match y, X, mid with
  | yy :: y', XX :: X', zz :: mid' =>
      init_element yy XX zz :: init_loop y' X' mid'
  | _, _, _ => []
  end.

(** [TLR.__init__]. *)
Definition init (y : list tensor) (X : list (list tensor))
  (device : string) (l_thred r_thred : option scalar) : result t :=
  let z := map (indicator l_thred r_thred) y in
  let mid := map mid_z z in
  let l := from_option NInf l_thred in
  let r := from_option (Fin 100) r_thred in
  let params := init_loop y X mid in
  let init_beta := map fst params in
  let init_sigma := map snd params in
  (* [init_beta] holds numpy float arrays: [self.beta] is a float
     parameter with the same entries. *)
  let beta := init_beta in
  match nn_Parameter (torch_tensor_of init_sigma) with
  | Raise e => Raise e
  | Ok sigma => Ok (mk y X z l r init_beta init_sigma beta sigma)
  end.

End Init.

(** One batch element of [forward] (lines 69-73): fitted values,
    replicated scale, standardized thresholds, summed log density.
    (The [squeeze] of line 69 is the identity for a batch of one element
    or rows of at least two observations, the shapes covered here.) *)
Definition forward_element (l_thred r_thred : scalar)
  (yy : tensor) (XX : list tensor) (bb : tensor) (s : scalar) : scalar :=
  let Xb := matvec XX bb in
  let exp_sigma := map (fun _ => xexp s) XX in
  let _l := t_div (map (fun v => xsub l_thred v) Xb) exp_sigma in
  let _r := t_div (map (fun v => xsub r_thred v) Xb) exp_sigma in
  t_sum (TruncatedNormal.log_prob yy _l _r Xb exp_sigma).

Fixpoint forward_rows (l_thred r_thred : scalar) (y : list tensor)
  (X : list (list tensor)) (beta : list tensor) (sigma : tensor) : tensor :=
  match y, X, beta, sigma with
  | yy :: y', XX :: X', bb :: beta', s :: sigma' =>
      forward_element l_thred r_thred yy XX bb s
        :: forward_rows l_thred r_thred y' X' beta' sigma'
  | _, _, _, _ => []
  end.

Definition forward (m : t) : tensor :=
  forward_rows (l_thred m) (r_thred m) (y m) (X m) (beta m) (sigma m).

End TLR.

(** ** The estimation driver [torch_TLR] *)

Module Driver.

Inductive phase : Type :=
| ITERATING
| CONVERGED.

Section Run.

Variable lstsq : list tensor -> tensor -> tensor.

(** [Adam] with its [CosineAnnealingLR] schedule and autograd, external
    collaborators: [optimizer_new] stands for lines 79-80, and
    [optimizer_step] for [loss.backward(); optimizer.step();
    scheduler.step()], which returns the updated [(beta, sigma)]. *)
Variable optimizer : Type.
Variable optimizer_new : TLR.t -> scalar -> nat -> optimizer.
Variable optimizer_step :
  optimizer -> TLR.t -> optimizer * (list tensor * tensor).

Record state : Type := mk {
  solver : TLR.t;
  opt : optimizer;
  iteration : nat;
  (* the iteration after whose step [solver.beta] was snapshotted *)
  best_beta : option nat;
  best_loss : scalar;
  prev_loss : scalar;
  status : phase
}.

Definition set_params (m : TLR.t) (p : list tensor * tensor) : TLR.t :=
  TLR.mk (TLR.y m) (TLR.X m) (TLR.z m) (TLR.l_thred m) (TLR.r_thred m)
         (TLR.init_beta m) (TLR.init_sigma m) (fst p) (snd p).

(** Line 84: [loss = -1 * solver().sum() / y.shape[0]]. *)
Definition loss_of (y : list tensor) (m : TLR.t) : scalar :=
  xdiv (xmul (Fin (-1)) (t_sum (TLR.forward m)))
       (Fin (INR (List.length y))).

(** Line 81. *)
Definition start (m : TLR.t) (o : optimizer) : state :=
  mk m o 0 None PInf PInf ITERATING.

(** One pass through the loop body (lines 83-93). *)
Definition body (y : list tensor) (tol : scalar) (st : state) : state :=
  let loss := loss_of y (solver st) in
  let '(o, p) := optimizer_step (opt st) (solver st) in
  let m := set_params (solver st) p in
  let '(bb, bl) :=
    if xlt loss (best_loss st)
    then (Some (iteration st), loss)
    else (best_beta st, best_loss st) in
  if xle (xabs (xsub loss (prev_loss st))) tol
  then mk m o (iteration st) bb bl (prev_loss st) CONVERGED
  else mk m o (S (iteration st)) bb bl loss ITERATING.

(** The loop as a state machine: after [break] nothing more happens. *)
Definition step (y : list tensor) (tol : scalar) (st : state) : state :=
  match status st with
  | ITERATING => body y tol st
  | CONVERGED => st
  end.

(** The state once [k] iterations of the loop budget have been used. *)
Definition after (y : list tensor) (tol : scalar) (k : nat) (st : state)
  : state :=
  Nat.iter k (step y tol) st.

(** [torch_TLR(y, X, device, lr, max_iter, tol, verbose)], up to the
    state in which the loop is left.  The failure kept is the one of the
    constructor; what the library calls of a pass can raise, and the
    [print] of line 95, are not modelled. *)
Definition torch_TLR (y : list tensor) (X : list (list tensor))
  (device : string) (lr : scalar) (max_iter : nat) (tol : scalar)
  (verbose : Z) : result state :=
  match TLR.init lstsq y X device (Some (Fin 0)) None with
  | Raise e => Raise e
  | Ok solver =>
      let optimizer := optimizer_new solver lr max_iter in
      Ok (after y tol max_iter (start solver optimizer))
  end.

End Run.

Arguments mk {optimizer}.
Arguments solver {optimizer}.
Arguments opt {optimizer}.
Arguments iteration {optimizer}.
Arguments best_beta {optimizer}.
Arguments best_loss {optimizer}.
Arguments prev_loss {optimizer}.
Arguments status {optimizer}.
Arguments start {optimizer}.
Arguments body {optimizer}.
Arguments step {optimizer}.
Arguments after {optimizer}.
Arguments torch_TLR lstsq {optimizer}.

End Driver.

(** ** Concrete inputs, and the loss as the specification words it *)

(** A least-squares solver that answers the zero vector, and an optimizer
    step that leaves the parameters alone: stand-ins used to run the
    driver on concrete data. *)
Definition lstsq_zero (XX : list tensor) (yy : tensor) : tensor := [Fin 0].

Definition keep_params (o : unit) (m : TLR.t)
  : unit * (list tensor * tensor) :=
  (o, (TLR.beta m, TLR.sigma m)).


(** A solver state: one batch element with two observations [y = 1],
    regressor [0], coefficient [0], log-scale parameter [7], and the
    thresholds [0] and [100] that [torch_TLR] uses.  The standardized
    bounds are [0] and [100 / e^7], about [0.09], and the standardized
    observation [1 / e^7] lies between them. *)
Definition solver_example : TLR.t :=
  TLR.mk [[Fin 1; Fin 1]] [[[Fin 0]; [Fin 0]]] [[Fin 0; Fin 0]]
         (Fin 0) (Fin 100) [[Fin 0]] [NpFloat (Fin 1)] [[Fin 0]] [Fin 7].

(** The log density of one observation of [solver_example]. *)
Definition example_log_density : R :=
  - ((1 + - (0 + 0 * 0)) / exp 7 * ((1 + - (0 + 0 * 0)) / exp 7)) / 2
  - ln (sqrt (2 * PI))
  + - ln (Phi (- ((0 + - (0 + 0 * 0)) / exp 7))
          - Phi (- ((100 + - (0 + 0 * 0)) / exp 7)))
  + - ln (exp 7).




(** ** Facts about the normal CDF used at concrete inputs *)

Lemma gauss_pos (t : R) : 0 < gauss t.
Proof. apply exp_pos. Qed.

Lemma gauss_le_1 (t : R) : gauss t <= 1.
Proof.
  unfold gauss. rewrite <- exp_0.
  destruct (Req_dec t 0) as [-> | Ht].
  - right. f_equal. lra.
  - left. apply exp_increasing. nra.
Qed.

Lemma gauss_integral_lower (a b : R) :
  a < b ->
  exp (- (Rmax (a * a) (b * b)) / 2) * (b - a)
  <= RiemannInt (gauss_integrable a b).
Proof.
  intros Hab.
  rewrite <- (RiemannInt_P15
                (RiemannInt_P14 a b (exp (- (Rmax (a * a) (b * b)) / 2)))).
  apply RiemannInt_P19; [lra|].
  intros x Hx. unfold fct_cte, gauss.
  assert (Hle : x * x <= Rmax (a * a) (b * b)).
  { destruct (Rle_dec 0 x).
    - apply Rle_trans with (b * b); [nra | apply Rmax_r].
    - apply Rle_trans with (a * a); [nra | apply Rmax_l]. }
  destruct Hle as [Hlt | Heq].
  - left. apply exp_increasing. lra.
  - right. f_equal. lra.
Qed.

Lemma gauss_integral_bounds (a b : R) :
  a < b ->
  0 < RiemannInt (gauss_integrable a b) <= b - a.
Proof.
  intros Hab. split.
  - apply Rlt_le_trans with (exp (- (Rmax (a * a) (b * b)) / 2) * (b - a)).
    + apply Rmult_lt_0_compat; [apply exp_pos | lra].
    + now apply gauss_integral_lower.
  - replace (b - a) with (1 * (b - a)) by ring.
    rewrite <- (RiemannInt_P15 (RiemannInt_P14 a b 1)).
    apply RiemannInt_P19; [lra|].
    intros x _. apply gauss_le_1.
Qed.

Lemma inv_sqrt_2PI_bounds : 0 < / sqrt (2 * PI) < 1 / 2.
Proof.
  assert (HPI : 2 < PI) by (generalize PI2_1; lra).
  assert (H2 : 2 < sqrt (2 * PI)).
  { replace 2 with (sqrt 4) at 1.
    - apply sqrt_lt_1; lra.
    - replace 4 with (2 * 2) by ring. apply sqrt_square. lra. }
  split.
  - apply Rinv_0_lt_compat. lra.
  - replace (1 / 2) with (/ 2) by lra.
    apply Rinv_lt_contravar; [nra | exact H2].
Qed.

Lemma Phi_0 : Phi 0 = 1 / 2.
Proof.
  unfold Phi. rewrite RiemannInt_P9. ring.
Qed.

Lemma Phi_right (x : R) : 0 < x -> 1 / 2 < Phi x < 1 / 2 + x / 2.
Proof.
  intros Hx. unfold Phi.
  destruct (gauss_integral_bounds 0 x Hx) as [Hlo Hhi].
  destruct inv_sqrt_2PI_bounds as [Hc0 Hc1].
  split; nra.
Qed.

Lemma Phi_left (x : R) : 0 < x -> 1 / 2 - x / 2 < Phi (- x) < 1 / 2.
Proof.
  intros Hx. unfold Phi.
  rewrite (RiemannInt_P8 (gauss_integrable 0 (- x)) (gauss_integrable (- x) 0)).
  assert (Hlt : - x < 0) by lra.
  destruct (gauss_integral_bounds (- x) 0 Hlt) as [Hlo Hhi].
  destruct inv_sqrt_2PI_bounds as [Hc0 Hc1].
  split; nra.
Qed.

(** ** Deciding comparisons of concrete reals *)

Lemma Rltb_true (x y : R) : x < y -> Rltb x y = true.
Proof. intros H. unfold Rltb. destruct (Rlt_dec x y); [reflexivity | lra]. Qed.

Lemma Rltb_false (x y : R) : y <= x -> Rltb x y = false.
Proof. intros H. unfold Rltb. destruct (Rlt_dec x y); [lra | reflexivity]. Qed.

Lemma Rleb_true (x y : R) : x <= y -> Rleb x y = true.
Proof. intros H. unfold Rleb. destruct (Rle_dec x y); [reflexivity | lra]. Qed.

Lemma Rleb_false (x y : R) : y < x -> Rleb x y = false.
Proof. intros H. unfold Rleb. destruct (Rle_dec x y); [lra | reflexivity]. Qed.

Lemma Reqb_true (x y : R) : x = y -> Reqb x y = true.
Proof.
  intros H. unfold Reqb. destruct (Req_dec_T x y); [reflexivity | lra].
Qed.

Lemma Reqb_false (x y : R) : x <> y -> Reqb x y = false.
Proof.
  intros H. unfold Reqb.
  destruct (Req_dec_T x y); [contradiction | reflexivity].
Qed.

Lemma Rltb_spec (x y : R) : Rltb x y = true <-> x < y.
Proof. unfold Rltb. destruct (Rlt_dec x y); split; (easy || lra). Qed.

Lemma Rleb_spec (x y : R) : Rleb x y = true <-> x <= y.
Proof. unfold Rleb. destruct (Rle_dec x y); split; (easy || lra). Qed.

(** ** Elementwise reading of the tensor code *)

Lemma direct_stage_cons (x y : scalar) (a b : tensor) :
  TruncatedNormal.direct_stage (x :: a) (y :: b)
  = direct_stage1 x y :: TruncatedNormal.direct_stage a b.
Proof.
  unfold TruncatedNormal.direct_stage, direct_stage1, direct_prob1, ids1_1.
  cbn -[xle xlt xge xgt xsub xmax xlog cdf xneg].
  destruct (xle x (Fin 30)), (xge y (Fin (-30))), (xgt x (Fin 0)),
    (xle x (Fin 0));
    cbn -[xle xlt xge xgt xsub xmax xlog cdf xneg];
    repeat match goal with
      | |- context [xisnan ?u] =>
          destruct (xisnan u); cbn -[xle xlt xge xgt xsub xmax xlog cdf xneg]
      | |- context [xgt ?u ?v] =>
          destruct (xgt u v); cbn -[xle xlt xge xgt xsub xmax xlog cdf xneg]
      end;
    reflexivity.
Qed.

Lemma get_logdelta_cons (x y : scalar) (a b : tensor) :
  TruncatedNormal.get_logdelta (x :: a) (y :: b)
  = get_logdelta1 x y :: TruncatedNormal.get_logdelta a b.
Proof.
  unfold TruncatedNormal.get_logdelta, get_logdelta1, ids2_1.
  rewrite direct_stage_cons.
  unfold TruncatedNormal.ids2_of.
  cbn -[xle xlt xge xgt xabs upper_tail1 lower_tail1 direct_stage1].
  destruct (xle (direct_stage1 x y) (Fin 0)), (xlt y (Fin 0)),
    (xge (xabs x) (xabs y)); reflexivity.
Qed.

Lemma get_logdelta_elementwise (a b : tensor) :
  List.length a = List.length b ->
  TruncatedNormal.get_logdelta a b = zip_with get_logdelta1 a b.
Proof.
  revert b. induction a as [|x a IH]; intros [|y b] Hlen;
    try discriminate; [reflexivity|].
  rewrite get_logdelta_cons. cbn. f_equal. apply IH.
  now injection Hlen.
Qed.

(** ** The interval log-probability on one element *)

Ltac rdec :=
  repeat first
    [ rewrite Rltb_true by lra | rewrite Rltb_false by lra
    | rewrite Rleb_true by lra | rewrite Rleb_false by lra
    | rewrite Reqb_true by lra | rewrite Reqb_false by lra ].

Lemma get_logdelta1_tail (a b : scalar) :
  get_logdelta1 a b = if ids2_1 a b then upper_tail1 a b else lower_tail1 a b.
Proof. unfold get_logdelta1. destruct (ids2_1 a b); reflexivity. Qed.

Lemma ln_le_0 (p : R) : 0 < p <= 1 -> ln p <= 0.
Proof.
  intros [Hp [Hlt | ->]].
  - left. rewrite <- ln_1. now apply ln_increasing.
  - right. apply ln_1.
Qed.

Lemma exp_ln_ratio (p q : R) : 0 < p -> 0 < q -> exp (ln p + - ln q) = p / q.
Proof.
  intros Hp Hq. rewrite exp_plus, exp_Ropp, !exp_ln by assumption.
  reflexivity.
Qed.

Lemma upper_tail1_nan (a b : R) :
  0 < Phi (- b) -> Phi (- b) < Phi (- a) -> upper_tail1 (Fin a) (Fin b) = NaN.
Proof.
  intros Hb Hab. unfold upper_tail1. cbn.
  rewrite exp_ln_ratio by lra.
  assert (1 < Phi (- a) / Phi (- b)).
  { apply Rmult_lt_reg_r with (Phi (- b)); [assumption|].
    unfold Rdiv. rewrite Rmult_assoc, Rinv_l by lra. lra. }
  rdec. reflexivity.
Qed.

Lemma lower_tail1_fin (a b : R) :
  0 < Phi (- b) -> Phi (- b) < Phi (- a) ->
  lower_tail1 (Fin a) (Fin b) = Fin (ln (Phi (- a) - Phi (- b))).
Proof.
  intros Hb Hab. unfold lower_tail1. cbn.
  rewrite exp_ln_ratio by lra.
  assert (Hr : 0 < Phi (- b) / Phi (- a) < 1).
  { split.
    - apply Rdiv_lt_0_compat; lra.
    - apply Rmult_lt_reg_r with (Phi (- a)); [lra|].
      unfold Rdiv. rewrite Rmult_assoc, Rinv_l by lra. lra. }
  rdec. cbn. f_equal.
  rewrite <- ln_mult by lra. f_equal. field. lra.
Qed.



Lemma direct_prob1_full_line : direct_prob1 NInf PInf = Fin 1.
Proof.
  unfold direct_prob1, ids1_1. cbn. rdec. cbn. rdec. f_equal. lra.
Qed.

Lemma direct_stage1_full_line : direct_stage1 NInf PInf = Fin 0.
Proof.
  unfold direct_stage1. rewrite direct_prob1_full_line. cbn. rdec.
  now rewrite ln_1.
Qed.

Lemma get_logdelta1_full_line : get_logdelta1 NInf PInf = NaN.
Proof.
  rewrite get_logdelta1_tail. unfold ids2_1.
  rewrite direct_stage1_full_line. cbn. rdec. reflexivity.
Qed.

(** Direct regime on a finite interval a <= 0 *)
Lemma direct_stage1_nonpos (a b : R) :
  a <= 0 -> - 30 <= b -> 0 < Phi b - Phi a <= 1 ->
  direct_prob1 (Fin a) (Fin b) = Fin (Phi b - Phi a)
  /\ direct_stage1 (Fin a) (Fin b) = Fin (ln (Phi b - Phi a)).
Proof.
  intros Ha Hb Hp.
  assert (E : direct_prob1 (Fin a) (Fin b) = Fin (Phi b - Phi a)).
  { unfold direct_prob1, ids1_1. cbn. rdec. cbn.
    fold (Phi b - Phi a). rdec. reflexivity. }
  split; [exact E|].
  unfold direct_stage1. rewrite E. cbn. rdec. reflexivity.
Qed.

Lemma Phi_1 : 1 / 2 < Phi 1 < 1.
Proof. generalize (Phi_right 1). lra. Qed.

Lemma Phi_m1 : 0 < Phi (-1) < 1 / 2.
Proof. change (-1) with (Ropp 1). generalize (Phi_left 1). lra. Qed.

Lemma get_logdelta1_m1_1 : get_logdelta1 (Fin (-1)) (Fin 1) = NaN.
Proof.
  rewrite get_logdelta1_tail. unfold ids2_1.
  destruct (direct_stage1_nonpos (-1) 1) as [_ ->];
    [lra | lra | generalize Phi_1 Phi_m1; lra |].
  assert (ln (Phi 1 - Phi (-1)) <= 0)
    by (apply ln_le_0; generalize Phi_1 Phi_m1; lra).
  cbn. rdec. cbn.
  assert (Rabs 1 <= Rabs (-1)) by (unfold Rabs; repeat destruct Rcase_abs; lra).
  rdec. cbn.
  apply upper_tail1_nan.
  - change (Ropp 1) with (-1). generalize Phi_1 Phi_m1; lra.
  - change (Ropp 1) with (-1). replace (Ropp (-1)) with 1 by lra.
    generalize Phi_1 Phi_m1; lra.
Qed.

Lemma get_logdelta1_m1_0 : get_logdelta1 (Fin (-1)) (Fin 0) = NaN.
Proof.
  rewrite get_logdelta1_tail. unfold ids2_1.
  destruct (direct_stage1_nonpos (-1) 0) as [_ ->];
    [lra | lra | rewrite Phi_0; generalize Phi_m1; lra |].
  assert (ln (Phi 0 - Phi (-1)) <= 0)
    by (apply ln_le_0; rewrite Phi_0; generalize Phi_m1; lra).
  cbn. rdec. cbn.
  assert (Rabs 0 <= Rabs (-1)) by (unfold Rabs; repeat destruct Rcase_abs; lra).
  rdec.
  apply upper_tail1_nan.
  - rewrite Ropp_0, Phi_0. lra.
  - rewrite Ropp_0, Phi_0. replace (Ropp (-1)) with 1 by lra.
    generalize Phi_1; lra.
Qed.

Lemma get_logdelta1_0_1 :
  get_logdelta1 (xneg (Fin 0)) (xneg (Fin (-1)))
  = Fin (ln (Phi 0 - Phi (-1))).
Proof.
  rewrite get_logdelta1_tail. unfold ids2_1. cbn -[lower_tail1 direct_stage1].
  assert (Rabs (- 0) < Rabs (- -1)).
  { unfold Rabs; repeat destruct Rcase_abs; lra. }
  replace (Rltb (Ropp (-1)) 0) with false by (symmetry; apply Rltb_false; lra).
  rdec. rewrite andb_false_r.
  rewrite lower_tail1_fin.
  - do 3 f_equal; [f_equal; lra|]. f_equal. lra.
  - replace (Ropp (Ropp (-1))) with (-1) by lra. apply Phi_m1.
  - replace (Ropp (Ropp (-1))) with (-1) by lra.
    replace (Ropp (Ropp 0)) with 0 by lra. rewrite Phi_0. apply Phi_m1.
Qed.

Lemma log_prob_cons (v x y l s : scalar) (val a b loc scale : tensor) :
  TruncatedNormal.log_prob (v :: val) (x :: a) (y :: b) (l :: loc) (s :: scale)
  = log_prob1 v x y l s :: TruncatedNormal.log_prob val a b loc scale.
Proof.
  unfold TruncatedNormal.log_prob. rewrite get_logdelta_cons.
  unfold log_prob1. cbn -[xdiv xsub xlt xgt xlog get_logdelta1 snd_log_prob1].
  reflexivity.
Qed.

Lemma get_logdelta_nth (a b : tensor) (i : nat) :
  List.length b = List.length a -> (i < List.length a)%nat ->
  nth i (TruncatedNormal.get_logdelta a b) NaN
  = get_logdelta1 (nth i a NaN) (nth i b NaN).
Proof.
  revert b i. induction a as [|x a IH]; intros [|y b] i Hb Hi;
    cbn in Hb, Hi; try discriminate; try lia.
  rewrite get_logdelta_cons. destruct i as [|i]; [reflexivity|].
  cbn [nth]. apply IH; lia.
Qed.


Lemma log_normal_cdf_not_pinf (a : scalar) : log_normal_cdf a <> PInf.
Proof. destruct a; discriminate. Qed.

Lemma log1p_neg_exp_not_pinf (w : scalar) : xlog1p (xneg (xexp w)) <> PInf.
Proof.
  destruct w; cbn; try discriminate.
  - destruct (Rltb (- 0) (-1)); [discriminate|].
    destruct (Reqb (- 0) (-1)); discriminate.
  - destruct (Rltb (- exp r) (-1)); [discriminate|].
    destruct (Reqb (- exp r) (-1)); discriminate.
Qed.

Lemma xadd_not_pinf (u v : scalar) : u <> PInf -> v <> PInf -> xadd u v <> PInf.
Proof. destruct u, v; cbn; congruence. Qed.

Lemma get_logdelta1_not_pinf (a b : scalar) : get_logdelta1 a b <> PInf.
Proof.
  rewrite get_logdelta1_tail. unfold upper_tail1, lower_tail1.
  destruct (ids2_1 a b); apply xadd_not_pinf;
    auto using log_normal_cdf_not_pinf, log1p_neg_exp_not_pinf.
Qed.



(** ** The interval log-probability primitive on tensors *)

Lemma get_logdelta_single (a b : scalar) :
  TruncatedNormal.get_logdelta [a] [b] = [get_logdelta1 a b].
Proof. now rewrite get_logdelta_cons. Qed.

Lemma direct_stage_single (a b : scalar) :
  TruncatedNormal.direct_stage [a] [b] = [direct_stage1 a b].
Proof. now rewrite direct_stage_cons. Qed.

(** C1. The claim asks that [get_logdelta] never returns NaN on bounds
    [a <= b].  On the valid finite bounds [a = -1], [b = 1] the code returns
    NaN: the element is eligible for the direct regime, its stored logarithm
    is [<= 0], so the mask [ids2] selects it ([|a| >= |b|]) and the
    upper-tail formula takes [log1p] of a number below [-1]. *)
Theorem get_logdelta_nan_on_valid_bounds :
  xle (Fin (-1)) (Fin 1) = true
  /\ TruncatedNormal.get_logdelta [Fin (-1)] [Fin 1] = [NaN].
Proof.
  split.
  - cbn. apply Rleb_true. lra.
  - rewrite get_logdelta_single. f_equal. apply get_logdelta1_m1_1.
Qed.

(** C3. On the bounds [a = -inf], [b = +inf] the claim asks for [0]; the
    direct regime does compute [log 1 = 0], but the element is then selected
    by [ids2] and overwritten with the upper-tail formula, which is NaN. *)
Theorem get_logdelta_full_line :
  TruncatedNormal.direct_stage [NInf] [PInf] = [Fin 0]
  /\ TruncatedNormal.get_logdelta [NInf] [PInf] = [NaN].
Proof.
  split.
  - rewrite direct_stage_single. f_equal. apply direct_stage1_full_line.
  - rewrite get_logdelta_single. f_equal. apply get_logdelta1_full_line.
Qed.

(** C4. The claim asks that an element with a strictly positive direct
    probability keeps the direct result.  At [a = -1], [b = 0] the direct
    probability [Phi 0 - Phi (-1)] is positive and its logarithm is stored
    by line 24, yet the element is in [ids2] and the returned value is the
    upper-tail one. *)
Theorem get_logdelta_direct_result_overwritten :
  direct_prob1 (Fin (-1)) (Fin 0) = Fin (Phi 0 - Phi (-1))
  /\ 0 < Phi 0 - Phi (-1)
  /\ TruncatedNormal.direct_stage [Fin (-1)] [Fin 0]
     = [Fin (ln (Phi 0 - Phi (-1)))]
  /\ TruncatedNormal.ids2_of
       (TruncatedNormal.direct_stage [Fin (-1)] [Fin 0]) [Fin (-1)] [Fin 0]
     = [true]
  /\ TruncatedNormal.get_logdelta [Fin (-1)] [Fin 0]
     = TruncatedNormal.upper_tail [Fin (-1)] [Fin 0]
  /\ TruncatedNormal.upper_tail [Fin (-1)] [Fin 0] = [NaN].
Proof.
  assert (Hp : 0 < Phi 0 - Phi (-1) <= 1)
    by (rewrite Phi_0; generalize Phi_m1; lra).
  destruct (direct_stage1_nonpos (-1) 0) as [E1 E2]; [lra | lra | exact Hp |].
  assert (Hln : ln (Phi 0 - Phi (-1)) <= 0) by now apply ln_le_0.
  assert (Habs : Rabs 0 <= Rabs (-1))
    by (unfold Rabs; repeat destruct Rcase_abs; lra).
  assert (Hup : upper_tail1 (Fin (-1)) (Fin 0) = NaN).
  { apply upper_tail1_nan.
    - rewrite Ropp_0, Phi_0. lra.
    - rewrite Ropp_0, Phi_0. replace (Ropp (-1)) with 1 by lra.
      generalize Phi_1; lra. }
  repeat split.
  - exact E1.
  - apply Hp.
  - rewrite direct_stage_single. now rewrite E2.
  - rewrite direct_stage_single, E2. cbn. now rdec.
  - rewrite get_logdelta_single, get_logdelta1_m1_0.
    change (TruncatedNormal.upper_tail [Fin (-1)] [Fin 0])
      with [upper_tail1 (Fin (-1)) (Fin 0)].
    now rewrite Hup.
  - change (TruncatedNormal.upper_tail [Fin (-1)] [Fin 0])
      with [upper_tail1 (Fin (-1)) (Fin 0)].
    now rewrite Hup.
Qed.

(** C5. The claim asks for [get_logdelta a b = get_logdelta (-b) (-a)].
    At [a = -1], [b = 0] the left side is NaN (upper-tail regime) and the
    right side, on the mirrored bounds, is the finite lower-tail value. *)
Theorem get_logdelta_not_symmetric :
  TruncatedNormal.get_logdelta [Fin (-1)] [Fin 0] = [NaN]
  /\ TruncatedNormal.get_logdelta (t_neg [Fin 0]) (t_neg [Fin (-1)])
     = [Fin (ln (Phi 0 - Phi (-1)))].
Proof.
  split.
  - rewrite get_logdelta_single. f_equal. apply get_logdelta1_m1_0.
  - change (t_neg [Fin 0]) with [xneg (Fin 0)].
    change (t_neg [Fin (-1)]) with [xneg (Fin (-1))].
    rewrite get_logdelta_single. f_equal. apply get_logdelta1_0_1.
Qed.




(** ** Model construction *)

Lemma init_element_no_interior
  (lstsq : list tensor -> tensor -> tensor)
  (yy : tensor) (XX : list tensor) (zz : list Z) :
  select (eq_1 zz) yy = [] ->
  snd (TLR.init_element lstsq yy XX zz) = PyInt 1.
Proof.
  intros H. unfold TLR.init_element. now rewrite H.
Qed.

Lemma indicator_censored_row :
  TLR.indicator (Some (Fin 0)) None [Fin 0; Fin 0] = [Fin (-1); Fin (-1)].
Proof.
  unfold TLR.indicator, fill. cbn. rdec. reflexivity.
Qed.

Lemma mid_z_censored_row : TLR.mid_z [Fin (-1); Fin (-1)] = [0%Z; 0%Z].
Proof.
  unfold TLR.mid_z, where_1_0. cbn. rdec. reflexivity.
Qed.

(** C8. A batch whose only element has no interior observation
    ([y = [[0, 0]]], lower threshold 0): the fallback of line 59 is taken
    and [init_sigma] is the list [[1]] holding the Python int [1];
    [torch.tensor] makes it an integer tensor and [nn.Parameter] raises, so
    model construction, and with it [torch_TLR], fails. *)
Theorem init_fails_without_interior_observations
  (lstsq : list tensor -> tensor -> tensor)
  (optimizer : Type)
  (optimizer_new : TLR.t -> scalar -> nat -> optimizer)
  (optimizer_step : optimizer -> TLR.t -> optimizer * (list tensor * tensor))
  (lr : scalar) (max_iter : nat) (tol : scalar) (verbose : Z) :
  let y := [[Fin 0; Fin 0]] in
  let X := [[[Fin 1]; [Fin 1]]] in
  let mid := map TLR.mid_z (map (TLR.indicator (Some (Fin 0)) None) y) in
  map (fun zz => select (eq_1 zz) [Fin 0; Fin 0]) mid = [[]]
  /\ map snd (TLR.init_loop lstsq y X mid) = [PyInt 1]
  /\ torch_tensor_of [PyInt 1] = IntTensor [1%Z]
  /\ TLR.init lstsq y X "cpu" (Some (Fin 0)) None
     = Raise (RuntimeError requires_grad_message)
  /\ Driver.torch_TLR lstsq optimizer_new optimizer_step
       y X "cpu" lr max_iter tol verbose
     = Raise (RuntimeError requires_grad_message).
Proof.
  cbn zeta.
  assert (Hinit :
    TLR.init lstsq [[Fin 0; Fin 0]] [[[Fin 1]; [Fin 1]]] "cpu"
      (Some (Fin 0)) None
    = Raise (RuntimeError requires_grad_message)).
  { unfold TLR.init. cbn [map].
    rewrite indicator_censored_row, mid_z_censored_row. reflexivity. }
  repeat split.
  - cbn [map]. now rewrite indicator_censored_row, mid_z_censored_row.
  - cbn [map]. now rewrite indicator_censored_row, mid_z_censored_row.
  - exact Hinit.
  - unfold Driver.torch_TLR. now rewrite Hinit.
Qed.

(** ** The estimation loop *)

Section DriverFacts.

Variable lstsq : list tensor -> tensor -> tensor.
Variable optimizer : Type.
Variable optimizer_new : TLR.t -> scalar -> nat -> optimizer.
Variable optimizer_step :
  optimizer -> TLR.t -> optimizer * (list tensor * tensor).


Lemma body_best_loss (y : list tensor) (tol : scalar)
  (st : Driver.state optimizer) :
  Driver.best_loss (Driver.body optimizer_step y tol st)
  = if xlt (Driver.loss_of y (Driver.solver st))
           (Driver.best_loss st)
    then Driver.loss_of y (Driver.solver st)
    else Driver.best_loss st.
Proof.
  unfold Driver.body.
  destruct (optimizer_step (Driver.opt st) (Driver.solver st)) as [o p].
  destruct (xlt _ (Driver.best_loss st));
    destruct (xle _ tol); reflexivity.
Qed.

Lemma body_thresholds (y : list tensor) (tol : scalar)
  (st : Driver.state optimizer) :
  TLR.l_thred (Driver.solver (Driver.body optimizer_step y tol st))
  = TLR.l_thred (Driver.solver st)
  /\ TLR.r_thred (Driver.solver (Driver.body optimizer_step y tol st))
     = TLR.r_thred (Driver.solver st).
Proof.
  unfold Driver.body.
  destruct (optimizer_step (Driver.opt st) (Driver.solver st)) as [o p].
  destruct (xlt _ (Driver.best_loss st));
    destruct (xle _ tol); split; reflexivity.
Qed.

Lemma after_succ (y : list tensor) (tol : scalar) (k : nat)
  (st : Driver.state optimizer) :
  Driver.after optimizer_step y tol (S k) st
  = Driver.step optimizer_step y tol (Driver.after optimizer_step y tol k st).
Proof. reflexivity. Qed.

Lemma after_thresholds (y : list tensor) (tol : scalar) (k : nat)
  (st : Driver.state optimizer) :
  TLR.l_thred (Driver.solver (Driver.after optimizer_step y tol k st))
  = TLR.l_thred (Driver.solver st)
  /\ TLR.r_thred (Driver.solver (Driver.after optimizer_step y tol k st))
     = TLR.r_thred (Driver.solver st).
Proof.
  induction k as [|k [IHl IHr]]; [split; reflexivity|].
  rewrite after_succ. unfold Driver.step.
  destruct (Driver.status (Driver.after optimizer_step y tol k st)).
  - destruct (body_thresholds y tol (Driver.after optimizer_step y tol k st))
      as [-> ->].
    now split.
  - now split.
Qed.

Lemma xlt_not_nan (a b : scalar) : xlt a b = true -> xisnan a = false.
Proof. destruct a, b; cbn; congruence. Qed.

Lemma xlt_xle (a b : scalar) : xlt a b = true -> xle a b = true.
Proof.
  destruct a, b; cbn; try congruence.
  rewrite Rltb_spec, Rleb_spec. lra.
Qed.

Lemma xle_refl (a : scalar) : xisnan a = false -> xle a a = true.
Proof.
  destruct a; cbn; try congruence. intros _. apply Rleb_true. lra.
Qed.

Lemma after_best_loss_not_nan (y : list tensor) (tol : scalar) (k : nat)
  (m : TLR.t) (o : optimizer) :
  xisnan (Driver.best_loss
            (Driver.after optimizer_step y tol k (Driver.start m o)))
  = false.
Proof.
  induction k as [|k IH]; [reflexivity|].
  rewrite after_succ. unfold Driver.step.
  destruct (Driver.status
              (Driver.after optimizer_step y tol k (Driver.start m o)));
    [|exact IH].
  rewrite body_best_loss.
  destruct (xlt _ _) eqn:E; [|exact IH].
  now apply xlt_not_nan in E.
Qed.

(** C9. Along one run, started as line 81 does, the recorded [best_loss]
    after [k + 1] iterations is at most the one after [k] iterations; it
    changes only in an iteration that is run and whose loss is strictly
    below the best loss so far, and then becomes that loss. *)
Theorem best_loss_non_increasing (y : list tensor) (tol : scalar)
  (m : TLR.t) (o : optimizer) (k : nat) :
  let before := Driver.after optimizer_step y tol k (Driver.start m o) in
  let next := Driver.after optimizer_step y tol (S k) (Driver.start m o) in
  let loss := Driver.loss_of y (Driver.solver before) in
  xle (Driver.best_loss next) (Driver.best_loss before) = true
  /\ (Driver.best_loss next = Driver.best_loss before
      \/ (Driver.status before = Driver.ITERATING
          /\ xlt loss (Driver.best_loss before) = true
          /\ Driver.best_loss next = loss)).
Proof.
  cbn zeta. rewrite after_succ. unfold Driver.step.
  pose proof (after_best_loss_not_nan y tol k m o) as Hnan.
  destruct (Driver.status
              (Driver.after optimizer_step y tol k (Driver.start m o)))
    eqn:Hs.
  - rewrite body_best_loss.
    destruct (xlt _ _) eqn:E.
    + split; [now apply xlt_xle | right; auto].
    + split; [now apply xle_refl | now left].
  - split; [now apply xle_refl | now left].
Qed.

(** C10. Whatever arguments [torch_TLR] is called with, the model it
    builds (line 78) and runs has lower threshold [0] and upper threshold
    [100], the default taken when [r_thred] is not passed. *)
Theorem torch_TLR_thresholds (y : list tensor) (X : list (list tensor))
  (device : string) (lr : scalar) (max_iter : nat) (tol : scalar)
  (verbose : Z) (st : Driver.state optimizer) :
  Driver.torch_TLR lstsq optimizer_new optimizer_step
    y X device lr max_iter tol verbose = Ok st ->
  (exists m, TLR.init lstsq y X device (Some (Fin 0)) None = Ok m)
  /\ TLR.l_thred (Driver.solver st) = Fin 0
  /\ TLR.r_thred (Driver.solver st) = Fin 100.
Proof.
  unfold Driver.torch_TLR.
  destruct (TLR.init lstsq y X device (Some (Fin 0)) None) as [m|e] eqn:Hm;
    [|discriminate].
  intros [= <-]. split; [now exists m|].
  destruct (after_thresholds y tol max_iter
              (Driver.start m (optimizer_new m lr max_iter))) as [-> ->].
  unfold TLR.init in Hm. cbn zeta in Hm.
  destruct (nn_Parameter _); [|discriminate].
  injection Hm as <-. now split.
Qed.

End DriverFacts.

(** ** A concrete run of the constructor *)

Lemma init_one_observation :
  exists m,
    TLR.init lstsq_zero [[Fin 1]] [[[Fin 1]]] "cpu" (Some (Fin 0)) None = Ok m.
Proof.
  unfold TLR.init, TLR.indicator, TLR.mid_z, where_1_0, fill.
  cbn. rdec. cbn. rdec. cbn.
  eexists. reflexivity.
Qed.

Lemma torch_TLR_thresholds_witness :
  exists st,
    Driver.torch_TLR lstsq_zero (fun _ _ _ => tt) keep_params
      [[Fin 1]] [[[Fin 1]]] "cpu" (Fin (1 / 10)) 3 (Fin (1 / 100000)) (-1)
    = Ok st
    /\ (exists m,
          TLR.init lstsq_zero [[Fin 1]] [[[Fin 1]]] "cpu" (Some (Fin 0)) None
          = Ok m)
    /\ TLR.l_thred (Driver.solver st) = Fin 0
    /\ TLR.r_thred (Driver.solver st) = Fin 100.
Proof.
  assert (H : exists st,
    Driver.torch_TLR lstsq_zero (fun _ _ _ => tt) keep_params
      [[Fin 1]] [[[Fin 1]]] "cpu" (Fin (1 / 10)) 3 (Fin (1 / 100000)) (-1)
    = Ok st).
  { unfold Driver.torch_TLR. destruct init_one_observation as [m ->].
    eexists. reflexivity. }
  destruct H as [st H]. exists st. split; [exact H|].
  exact (torch_TLR_thresholds lstsq_zero unit (fun _ _ _ => tt) keep_params
           _ _ _ _ _ _ _ st H).
Defined.

(** ** The loss of the driver *)



Lemma Phi_gap_lower (x : R) :
  0 < x -> / sqrt (2 * PI) * (exp (- (x * x) / 2) * x) <= Phi 0 - Phi (- x).
Proof.
  intros Hx. rewrite Phi_0. unfold Phi.
  rewrite (RiemannInt_P8 (gauss_integrable 0 (- x)) (gauss_integrable (- x) 0)).
  assert (Hlt : - x < 0) by lra.
  pose proof (gauss_integral_lower (- x) 0 Hlt) as Hlo.
  replace (Rmax (- x * - x) (0 * 0)) with (x * x) in Hlo.
  2:{ rewrite Rmax_left; nra. }
  destruct inv_sqrt_2PI_bounds as [Hc _].
  replace (0 - - x) with x in Hlo by ring.
  nra.
Qed.

Lemma Phi_gap_upper (x : R) :
  0 < x -> / sqrt (2 * PI) * (exp (- (x * x) / 2) * x) <= Phi x - Phi 0.
Proof.
  intros Hx. rewrite Phi_0. unfold Phi.
  pose proof (gauss_integral_lower 0 x Hx) as Hlo.
  replace (Rmax (0 * 0) (x * x)) with (x * x) in Hlo.
  2:{ rewrite Rmax_right; nra. }
  destruct inv_sqrt_2PI_bounds as [Hc _].
  replace (x - 0) with x in Hlo by ring.
  nra.
Qed.

Lemma inv_sqrt_2PI_lower : 1 / 3 <= / sqrt (2 * PI).
Proof.
  assert (HPI : 0 < PI <= 4) by (split; [apply PI_RGT_0 | apply PI_4]).
  assert (H3 : sqrt (2 * PI) <= 3).
  { replace 3 with (sqrt 9).
    - apply sqrt_le_1; lra.
    - replace 9 with (3 * 3) by ring. apply sqrt_square. lra. }
  assert (H0 : 0 < sqrt (2 * PI)) by (apply sqrt_lt_R0; lra).
  replace (1 / 3) with (/ 3) by lra.
  apply Rinv_le_contravar; assumption.
Qed.

Lemma exp_minus_half_lower : 1 / 2 <= exp (- (1 * 1) / 2).
Proof.
  replace (- (1 * 1) / 2) with (- (1 / 2)) by lra.
  rewrite exp_Ropp.
  pose proof (exp_pos (1 / 2)) as Hp.
  assert (Hsq : exp (1 / 2) * exp (1 / 2) <= 3).
  { rewrite <- exp_plus. replace (1 / 2 + 1 / 2) with 1 by lra.
    apply exp_le_3. }
  assert (H2 : exp (1 / 2) <= 2) by nra.
  replace (1 / 2) with (/ 2) at 1 by lra.
  apply Rinv_le_contravar; assumption.
Qed.

(** [Phi 0 - Phi (-1)] and [Phi 1 - Phi 0] are at least [1/6]. *)
Lemma Phi_gap_at_1 : 1 / 6 <= Phi 0 - Phi (-1) /\ 1 / 6 <= Phi 1 - Phi 0.
Proof.
  pose proof inv_sqrt_2PI_lower as Hc.
  pose proof exp_minus_half_lower as He.
  assert (H1 : (0 : R) < 1) by lra.
  pose proof (Phi_gap_lower 1 H1) as Hl.
  pose proof (Phi_gap_upper 1 H1) as Hu.
  change (Ropp 1) with (-1) in Hl.
  split; nra.
Qed.

(** The log density at an observation inside a finite interval whose
    element goes to the lower-tail regime. *)
Lemma log_prob1_finite (v a b loc s : R) :
  0 < s ->
  a <= (v + - loc) / s <= b -> 0 <= b -> Rabs a < Rabs b ->
  0 < Phi (- b) -> Phi (- b) < Phi (- a) ->
  log_prob1 (Fin v) (Fin a) (Fin b) (Fin loc) (Fin s)
  = Fin (- ((v + - loc) / s * ((v + - loc) / s)) / 2 - ln (sqrt (2 * PI))
         + - ln (Phi (- a) - Phi (- b)) + - ln s).
Proof.
  intros Hs Hin Hb Habs Hpb Hpab.
  unfold log_prob1.
  assert (Hd : get_logdelta1 (Fin a) (Fin b)
               = Fin (ln (Phi (- a) - Phi (- b)))).
  { rewrite get_logdelta1_tail. unfold ids2_1.
    cbn -[direct_stage1 lower_tail1 upper_tail1]. rdec.
    rewrite andb_false_r. now apply lower_tail1_fin. }
  rewrite Hd. cbn. rdec. cbn. rdec. reflexivity.
Qed.

Lemma exp_7_large : 128 < exp 7.
Proof.
  pose proof (exp_ineq1 1) as He.
  assert (H1 : 2 < exp 1) by lra.
  replace 7 with (1 + 1 + 1 + 1 + 1 + 1 + 1) by lra.
  rewrite !exp_plus.
  assert (H2 : 4 < exp 1 * exp 1) by nra.
  assert (H4 : 16 < exp 1 * exp 1 * exp 1 * exp 1) by nra.
  assert (H6 : 64 < exp 1 * exp 1 * exp 1 * exp 1 * exp 1 * exp 1) by nra.
  nra.
Qed.

Lemma example_upper_bound : 0 < 100 / exp 7 < 1.
Proof.
  pose proof exp_7_large as HE.
  split.
  - apply Rdiv_lt_0_compat; lra.
  - apply Rmult_lt_reg_r with (exp 7); [lra|].
    unfold Rdiv. rewrite Rmult_assoc, Rinv_l by lra. lra.
Qed.

Lemma example_log_prob1 :
  log_prob1 (Fin 1) (Fin ((0 + - (0 + 0 * 0)) / exp 7))
    (Fin ((100 + - (0 + 0 * 0)) / exp 7)) (Fin (0 + 0 * 0)) (Fin (exp 7))
  = Fin example_log_density.
Proof.
  pose proof exp_7_large as HE.
  pose proof example_upper_bound as Hb.
  assert (Ha0 : (0 + - (0 + 0 * 0)) / exp 7 = 0) by (field; lra).
  assert (Hb0 : (100 + - (0 + 0 * 0)) / exp 7 = 100 / exp 7)
    by (field; lra).
  assert (Hv0 : (1 + - (0 + 0 * 0)) / exp 7 = / exp 7) by (field; lra).
  assert (Hinv : 0 < / exp 7) by (apply Rinv_0_lt_compat; lra).
  apply log_prob1_finite.
  - lra.
  - rewrite Ha0, Hb0, Hv0. unfold Rdiv. nra.
  - rewrite Hb0. lra.
  - rewrite Ha0, Hb0. unfold Rabs; repeat destruct Rcase_abs; lra.
  - rewrite Hb0. generalize (Phi_left (100 / exp 7)). lra.
  - rewrite Ha0, Hb0, Ropp_0, Phi_0.
    generalize (Phi_left (100 / exp 7)). lra.
Qed.

Lemma forward_example :
  TLR.forward solver_example
  = [Fin (0 + example_log_density + example_log_density)].
Proof.
  pose proof (exp_pos 7) as HE.
  unfold TLR.forward, solver_example.
  cbn [TLR.l_thred TLR.r_thred TLR.y TLR.X TLR.beta TLR.sigma
       TLR.forward_rows].
  unfold TLR.forward_element, matvec, dot, t_sum, t_div.
  cbn [map zip_with fold_left xmul xadd xsub xneg xexp xdiv].
  rdec.
  rewrite !log_prob_cons, example_log_prob1.
  reflexivity.
Qed.





(** ** More on the interval log-probability primitive *)

Lemma upper_tail_cons (x y : scalar) (a b : tensor) :
  TruncatedNormal.upper_tail (x :: a) (y :: b)
  = upper_tail1 x y :: TruncatedNormal.upper_tail a b.
Proof. reflexivity. Qed.

Lemma lower_tail_cons (x y : scalar) (a b : tensor) :
  TruncatedNormal.lower_tail (x :: a) (y :: b)
  = lower_tail1 x y :: TruncatedNormal.lower_tail a b.
Proof. reflexivity. Qed.

Lemma ids2_of_cons (x y : scalar) (a b : tensor) :
  TruncatedNormal.ids2_of (TruncatedNormal.direct_stage (x :: a) (y :: b))
    (x :: a) (y :: b)
  = ids2_1 x y
      :: TruncatedNormal.ids2_of (TruncatedNormal.direct_stage a b) a b.
Proof. rewrite direct_stage_cons. reflexivity. Qed.

Lemma upper_tail_nth (a b : tensor) (i : nat) :
  List.length b = List.length a -> (i < List.length a)%nat ->
  nth i (TruncatedNormal.upper_tail a b) NaN
  = upper_tail1 (nth i a NaN) (nth i b NaN).
Proof.
  revert b i. induction a as [|x a IH]; intros [|y b] i Hb Hi;
    cbn in Hb, Hi; try discriminate; try lia.
  rewrite upper_tail_cons. destruct i as [|i]; [reflexivity|].
  cbn [nth]. apply IH; lia.
Qed.

Lemma lower_tail_nth (a b : tensor) (i : nat) :
  List.length b = List.length a -> (i < List.length a)%nat ->
  nth i (TruncatedNormal.lower_tail a b) NaN
  = lower_tail1 (nth i a NaN) (nth i b NaN).
Proof.
  revert b i. induction a as [|x a IH]; intros [|y b] i Hb Hi;
    cbn in Hb, Hi; try discriminate; try lia.
  rewrite lower_tail_cons. destruct i as [|i]; [reflexivity|].
  cbn [nth]. apply IH; lia.
Qed.

Lemma ids2_of_nth (a b : tensor) (i : nat) :
  List.length b = List.length a -> (i < List.length a)%nat ->
  nth i (TruncatedNormal.ids2_of (TruncatedNormal.direct_stage a b) a b) false
  = ids2_1 (nth i a NaN) (nth i b NaN).
Proof.
  revert b i. induction a as [|x a IH]; intros [|y b] i Hb Hi;
    cbn in Hb, Hi; try discriminate; try lia.
  rewrite ids2_of_cons. destruct i as [|i]; [reflexivity|].
  cbn [nth]. apply IH; lia.
Qed.

(** Whatever the bounds, no entry of the result of [get_logdelta] is
    [+inf]. *)
Theorem get_logdelta_never_pinf (a b : tensor) (i : nat) :
  List.length b = List.length a -> (i < List.length a)%nat ->
  xeq (nth i (TruncatedNormal.get_logdelta a b) NaN) PInf = false.
Proof.
  intros Hb Hi. rewrite get_logdelta_nth by assumption.
  pose proof (get_logdelta1_not_pinf (nth i a NaN) (nth i b NaN)) as H.
  destruct (get_logdelta1 _ _); try reflexivity. contradiction.
Qed.

Lemma get_logdelta_never_pinf_witness :
  xeq (nth 0 (TruncatedNormal.get_logdelta [Fin (-1)] [Fin 1]) NaN) PInf
  = false.
Proof.
  exact (get_logdelta_never_pinf [Fin (-1)] [Fin 1] 0%nat eq_refl
           (Nat.lt_0_succ 0)).
Defined.

(** Every entry of the result of [get_logdelta] is the value of one of the
    two tail formulas, chosen by the mask [ids2]: the value the direct
    regime stored in [res] is never what is returned. *)
Theorem get_logdelta_is_tail_value (a b : tensor) (i : nat) :
  List.length b = List.length a -> (i < List.length a)%nat ->
  nth i (TruncatedNormal.get_logdelta a b) NaN
  = if nth i (TruncatedNormal.ids2_of
                (TruncatedNormal.direct_stage a b) a b) false
    then nth i (TruncatedNormal.upper_tail a b) NaN
    else nth i (TruncatedNormal.lower_tail a b) NaN.
Proof.
  intros Hb Hi.
  rewrite get_logdelta_nth, ids2_of_nth, upper_tail_nth, lower_tail_nth
    by assumption.
  apply get_logdelta1_tail.
Qed.

Lemma get_logdelta_is_tail_value_witness :
  nth 0 (TruncatedNormal.get_logdelta [NInf] [PInf]) NaN
  = if nth 0 (TruncatedNormal.ids2_of
                (TruncatedNormal.direct_stage [NInf] [PInf]) [NInf] [PInf])
         false
    then nth 0 (TruncatedNormal.upper_tail [NInf] [PInf]) NaN
    else nth 0 (TruncatedNormal.lower_tail [NInf] [PInf]) NaN.
Proof.
  exact (get_logdelta_is_tail_value [NInf] [PInf] 0%nat eq_refl
           (Nat.lt_0_succ 0)).
Defined.

Lemma ids2_1_outside_window (x y : scalar) :
  xle x (Fin 30) && xge y (Fin (-30)) = false -> ids2_1 x y = false.
Proof.
  intros H. unfold ids2_1, direct_stage1, direct_prob1, ids1_1.
  rewrite H. reflexivity.
Qed.

(** An element that is not eligible for the direct regime ([a <= 30] and
    [b >= -30] fails, also when a bound is NaN) is never in [ids2]: its
    value is the lower-tail formula, also when the interval lies in the
    lower tail ([b < -30]). *)
Theorem get_logdelta_outside_window (a b : tensor) (i : nat) :
  List.length b = List.length a -> (i < List.length a)%nat ->
  xle (nth i a NaN) (Fin 30) && xge (nth i b NaN) (Fin (-30)) = false ->
  nth i (TruncatedNormal.get_logdelta a b) NaN
  = nth i (TruncatedNormal.lower_tail a b) NaN.
Proof.
  intros Hb Hi Hout.
  rewrite get_logdelta_nth, lower_tail_nth by assumption.
  rewrite get_logdelta1_tail, ids2_1_outside_window by assumption.
  reflexivity.
Qed.

Lemma get_logdelta_outside_window_witness :
  nth 0 (TruncatedNormal.get_logdelta [Fin (-50)] [Fin (-40)]) NaN
  = nth 0 (TruncatedNormal.lower_tail [Fin (-50)] [Fin (-40)]) NaN.
Proof.
  apply (get_logdelta_outside_window [Fin (-50)] [Fin (-40)] 0%nat eq_refl
           (Nat.lt_0_succ 0)).
  cbn. now rdec.
Defined.




Lemma direct_stage1_window_nonpos (x y : R) :
  x <= 30 -> -30 <= y ->
  Phi y - Phi x <= 1 -> Phi (- x) - Phi (- y) <= 1 ->
  xle (direct_stage1 (Fin x) (Fin y)) (Fin 0) = true.
Proof.
  intros Hx Hy H1 H2.
  unfold direct_stage1, direct_prob1, ids1_1. cbn. rdec. cbn.
  destruct (Rlt_dec 0 x) as [Hpos | Hneg].
  - rewrite (Rltb_true 0 x), (Rleb_false x 0) by lra. cbn.
    destruct (Rle_dec (Phi (- x) + - Phi (- y)) 0) as [Hle | Hgt].
    + rewrite (Rleb_true _ 0 Hle). cbn. rdec. cbn. now rdec.
    + rewrite (Rleb_false _ 0) by lra. cbn. rdec. cbn.
      apply Rleb_true. apply ln_le_0. lra.
  - rewrite (Rltb_false 0 x), (Rleb_true x 0) by lra. cbn.
    destruct (Rle_dec (Phi y + - Phi x) 0) as [Hle | Hgt].
    + rewrite (Rleb_true _ 0 Hle). cbn. rdec. cbn. now rdec.
    + rewrite (Rleb_false _ 0) by lra. cbn. rdec. cbn.
      apply Rleb_true. apply ln_le_0. lra.
Qed.

(** On finite bounds inside the direct window with [b < 0] or
    [|a| >= |b|], whose upper-tail probabilities are well apart
    ([Phi (- a)] at least [1.001 * Phi (- b)], so that the difference of
    their logarithms is far above rounding), the result of
    [get_logdelta] is NaN: the element is in [ids2] and the upper-tail
    formula takes [log1p] below [-1]. *)
Theorem get_logdelta_upper_tail_nan (a b : tensor) (i : nat) (x y : R) :
  List.length b = List.length a -> (i < List.length a)%nat ->
  nth i a NaN = Fin x -> nth i b NaN = Fin y ->
  x <= 30 -> -30 <= y -> y < 0 \/ Rabs y <= Rabs x ->
  Phi y - Phi x <= 1 -> Phi (- x) - Phi (- y) <= 1 ->
  0 < Phi (- y) -> 1001 / 1000 * Phi (- y) <= Phi (- x) ->
  nth i (TruncatedNormal.get_logdelta a b) NaN = NaN.
Proof.
  intros Hb Hi Hx Hy Hx30 Hy30 Hreg H1 H2 Hpos Hgap.
  assert (Hlt : Phi (- y) < Phi (- x)) by lra.
  rewrite get_logdelta_nth, Hx, Hy, get_logdelta1_tail by assumption.
  assert (Hids : ids2_1 (Fin x) (Fin y) = true).
  { unfold ids2_1. rewrite direct_stage1_window_nonpos by assumption.
    cbn. destruct Hreg as [Hneg | Habs].
    - now rewrite (Rltb_true y 0 Hneg).
    - rewrite (Rleb_true _ _ Habs). apply orb_true_r. }
  rewrite Hids. now apply upper_tail1_nan.
Qed.

Lemma get_logdelta_upper_tail_nan_witness :
  nth 0 (TruncatedNormal.get_logdelta [Fin (-1)] [Fin 0]) NaN = NaN.
Proof.
  pose proof Phi_m1 as Hm1. pose proof Phi_1 as H1. pose proof Phi_0 as H0.
  pose proof Phi_gap_at_1 as [_ Hgap].
  assert (E1 : Ropp (-1) = 1) by lra.
  apply (get_logdelta_upper_tail_nan [Fin (-1)] [Fin 0] 0%nat (-1) 0 eq_refl
           (Nat.lt_0_succ 0) eq_refl eq_refl).
  - lra.
  - lra.
  - right. unfold Rabs; repeat destruct Rcase_abs; lra.
  - lra.
  - rewrite E1, Ropp_0. lra.
  - rewrite Ropp_0. lra.
  - rewrite E1, Ropp_0. lra.
Defined.

(** ** More on model construction *)

Lemma fill_map_nth (f : scalar -> bool) (v : scalar) (yy z : tensor)
  (i : nat) :
  List.length z = List.length yy -> (i < List.length yy)%nat ->
  nth i (fill (map f yy) v z) NaN
  = if f (nth i yy NaN) then v else nth i z NaN.
Proof.
  revert z i. induction yy as [|y yy IH]; intros [|x z] i Hz Hi;
    cbn in Hz, Hi; try discriminate; try lia.
  destruct i as [|i]; [reflexivity|].
  cbn [map nth]. unfold fill in *. cbn [zip_with nth]. apply IH; lia.
Qed.

Lemma fill_length (m : mask) (v : scalar) (z : tensor) :
  List.length m = List.length z -> List.length (fill m v z) = List.length z.
Proof.
  revert z. induction m as [|c m IH]; intros [|x z] H; cbn in *;
    try discriminate; try reflexivity.
  f_equal. apply IH. lia.
Qed.

(** The censoring indicator of one observation: [1] where [y >= r_thred]
    (this assignment comes last and wins), else [-1] where
    [y <= l_thred], else [0]; a NaN observation is marked [0], interior. *)
Theorem indicator_entry (l r : option scalar) (yy : tensor) (i : nat) :
  (i < List.length yy)%nat ->
  nth i (TLR.indicator l r yy) NaN
  = (if match r with Some rv => xge (nth i yy NaN) rv | None => false end
     then Fin 1
     else if match l with Some lv => xle (nth i yy NaN) lv | None => false end
          then Fin (-1)
          else Fin 0)
  /\ (nth i yy NaN = NaN -> nth i (TLR.indicator l r yy) NaN = Fin 0).
Proof.
  intros Hi.
  assert (Hz : nth i (map (fun _ : scalar => Fin 0) yy) NaN = Fin 0).
  { rewrite (nth_indep _ NaN (Fin 0)) by now rewrite length_map.
    apply (map_nth (fun _ : scalar => Fin 0) yy NaN). }
  assert (E : nth i (TLR.indicator l r yy) NaN
    = (if match r with Some rv => xge (nth i yy NaN) rv | None => false end
       then Fin 1
       else if match l with
               | Some lv => xle (nth i yy NaN) lv
               | None => false
               end
            then Fin (-1)
            else Fin 0)).
  { unfold TLR.indicator. destruct l as [lv|], r as [rv|].
    - rewrite (fill_map_nth (fun v => xge v rv)); [| |assumption].
      + rewrite (fill_map_nth (fun v => xle v lv));
          [| now rewrite length_map | assumption].
        now rewrite Hz.
      + rewrite fill_length; now rewrite !length_map.
    - rewrite (fill_map_nth (fun v => xle v lv));
        [| now rewrite length_map | assumption].
      now rewrite Hz.
    - rewrite (fill_map_nth (fun v => xge v rv));
        [| now rewrite length_map | assumption].
      now rewrite Hz.
    - exact Hz. }
  split; [exact E|].
  intros Hnan. rewrite E, Hnan. unfold xge.
  destruct r as [[| | |rv]|], l as [[| | |lv]|]; reflexivity.
Qed.

Lemma indicator_entry_witness :
  nth 0 (TLR.indicator (Some (Fin 0)) (Some (Fin 100)) [Fin 0; NaN]) NaN
  = (if xge (nth 0 [Fin 0; NaN] NaN) (Fin 100)
     then Fin 1
     else if xle (nth 0 [Fin 0; NaN] NaN) (Fin 0) then Fin (-1) else Fin 0)
  /\ (nth 0 [Fin 0; NaN] NaN = NaN ->
      nth 0 (TLR.indicator (Some (Fin 0)) (Some (Fin 100)) [Fin 0; NaN]) NaN
      = Fin 0).
Proof.
  apply (indicator_entry (Some (Fin 0)) (Some (Fin 100)) [Fin 0; NaN] 0%nat).
  cbn. lia.
Defined.

Section InitFacts.

Variable lstsq : list tensor -> tensor -> tensor.

Lemma init_element_is_pyint (yy : tensor) (XX : list tensor) (zz : list Z) :
  is_pyint (snd (TLR.init_element lstsq yy XX zz)) = true
  <-> select (eq_1 zz) yy = [].
Proof.
  unfold TLR.init_element. cbn [snd].
  destruct (select (eq_1 zz) yy) as [|v sel]; cbn; split;
    (reflexivity || discriminate).
Qed.

Lemma init_loop_all_pyint (l r : option scalar) (y : list tensor)
  (X : list (list tensor)) :
  List.length X = List.length y ->
  forallb is_pyint
    (map snd (TLR.init_loop lstsq y X
                (map TLR.mid_z (map (TLR.indicator l r) y)))) = true
  <-> Forall
        (fun yy =>
           select (eq_1 (TLR.mid_z (TLR.indicator l r yy))) yy = []) y.
Proof.
  revert X. induction y as [|yy y IH]; intros [|XX X] HX; cbn in HX;
    try discriminate.
  - cbn. split; [constructor | reflexivity].
  - cbn [map TLR.init_loop forallb]. rewrite andb_true_iff.
    rewrite init_element_is_pyint, IH by lia.
    split.
    + intros [H1 H2]. now constructor.
    + intros H. inversion H. now split.
Qed.

Lemma init_loop_nil (y : list tensor) (X : list (list tensor))
  (mid : list (list Z)) :
  List.length X = List.length y -> List.length mid = List.length y ->
  TLR.init_loop lstsq y X mid = [] -> y = [].
Proof.
  destruct y, X, mid; cbn; intros; try discriminate; reflexivity.
Qed.

Lemma init_raises_characterised (y : list tensor) (X : list (list tensor))
  (device : string) (l r : option scalar) :
  List.length X = List.length y ->
  (TLR.init lstsq y X device l r = Raise (RuntimeError requires_grad_message)
   <-> y <> []
       /\ Forall
            (fun yy =>
               select (eq_1 (TLR.mid_z (TLR.indicator l r yy))) yy = []) y)
  /\ ((exists m, TLR.init lstsq y X device l r = Ok m)
      \/ TLR.init lstsq y X device l r
         = Raise (RuntimeError requires_grad_message)).
Proof.
  intros HX.
  pose proof (init_loop_all_pyint l r y X HX) as Hall.
  unfold TLR.init. cbn zeta.
  set (sig := map snd
                (TLR.init_loop lstsq y X
                   (map TLR.mid_z (map (TLR.indicator l r) y)))) in *.
  assert (Hnil : sig = [] -> y = []).
  { unfold sig. intros H. apply map_eq_nil in H.
    apply (init_loop_nil y X _ HX) in H; [assumption|].
    now rewrite !length_map. }
  unfold torch_tensor_of.
  destruct sig as [|p sig'] eqn:Es.
  - cbn. split; [|left; eexists; reflexivity].
    split; [discriminate|]. intros [Hy _]. exfalso. now apply Hy, Hnil.
  - destruct (forallb is_pyint (p :: sig')) eqn:Ef; cbn.
    + split; [|now right].
      split; [|reflexivity]. intros _. split.
      * intros ->. destruct X; discriminate.
      * now apply Hall.
    + split; [|left; eexists; reflexivity].
      split; [discriminate|]. intros [_ HF].
      apply Hall in HF. congruence.
Qed.

(** With one design matrix per response row, model construction raises
    exactly when the batch is non-empty and no batch element has an
    interior observation; with at least one interior observation
    somewhere in the batch it succeeds. *)
Theorem init_raises_iff (y : list tensor) (X : list (list tensor))
  (device : string) (l r : option scalar) :
  List.length X = List.length y ->
  (TLR.init lstsq y X device l r = Raise (RuntimeError requires_grad_message)
   <-> y <> []
       /\ Forall
            (fun yy =>
               select (eq_1 (TLR.mid_z (TLR.indicator l r yy))) yy = []) y)
  /\ ((exists m, TLR.init lstsq y X device l r = Ok m)
      \/ TLR.init lstsq y X device l r
         = Raise (RuntimeError requires_grad_message)).
Proof. apply init_raises_characterised. Qed.

End InitFacts.

Lemma init_raises_iff_witness :
  (TLR.init lstsq_zero [[Fin 0; Fin 0]] [[[Fin 1]; [Fin 1]]] "cpu"
     (Some (Fin 0)) None
   = Raise (RuntimeError requires_grad_message)
   <-> [[Fin 0; Fin 0]] <> []
       /\ Forall
            (fun yy =>
               select (eq_1 (TLR.mid_z
                               (TLR.indicator (Some (Fin 0)) None yy))) yy
               = [])
            [[Fin 0; Fin 0]])
  /\ ((exists m,
         TLR.init lstsq_zero [[Fin 0; Fin 0]] [[[Fin 1]; [Fin 1]]] "cpu"
           (Some (Fin 0)) None = Ok m)
      \/ TLR.init lstsq_zero [[Fin 0; Fin 0]] [[[Fin 1]; [Fin 1]]] "cpu"
           (Some (Fin 0)) None
         = Raise (RuntimeError requires_grad_message)).
Proof.
  exact (init_raises_iff lstsq_zero [[Fin 0; Fin 0]] [[[Fin 1]; [Fin 1]]]
           "cpu" (Some (Fin 0)) None eq_refl).
Defined.

Lemma init_loop_nth (lstsq : list tensor -> tensor -> tensor)
  (y : list tensor) (X : list (list tensor)) (mid : list (list Z))
  (i : nat) (d : tensor * pynum) :
  List.length X = List.length y -> List.length mid = List.length y ->
  (i < List.length y)%nat ->
  nth i (TLR.init_loop lstsq y X mid) d
  = TLR.init_element lstsq (nth i y []) (nth i X []) (nth i mid []).
Proof.
  revert X mid i.
  induction y as [|yy y IH]; intros [|XX X] [|zz mid] i HX Hm Hi;
    cbn in HX, Hm, Hi; try discriminate; try lia.
  destruct i as [|i]; [reflexivity|].
  cbn [TLR.init_loop nth]. apply IH; lia.
Qed.

Lemma init_loop_length (lstsq : list tensor -> tensor -> tensor)
  (y : list tensor) (X : list (list tensor)) (mid : list (list Z)) :
  List.length X = List.length y -> List.length mid = List.length y ->
  List.length (TLR.init_loop lstsq y X mid) = List.length y.
Proof.
  revert X mid. induction y as [|yy y IH]; intros [|XX X] [|zz mid] HX Hm;
    cbn in *; try discriminate; try reflexivity.
  f_equal. apply IH; lia.
Qed.

(** When construction succeeds, a batch element without interior
    observation gets the fallback: its entry of [init_sigma] is the
    Python int [1] and its trainable [sigma] entry is the float [1]. *)
Theorem init_sigma_fallback (lstsq : list tensor -> tensor -> tensor)
  (y : list tensor) (X : list (list tensor)) (device : string)
  (l r : option scalar) (m : TLR.t) (i : nat) :
  List.length X = List.length y ->
  TLR.init lstsq y X device l r = Ok m ->
  (i < List.length y)%nat ->
  select (eq_1 (TLR.mid_z (TLR.indicator l r (nth i y [])))) (nth i y []) = []
  ->
  nth i (TLR.init_sigma m) (NpFloat NaN) = PyInt 1
  /\ nth i (TLR.sigma m) NaN = Fin 1.
Proof.
  intros HX Hinit Hi Hsel.
  unfold TLR.init in Hinit. cbn zeta in Hinit.
  set (mid := map TLR.mid_z (map (TLR.indicator l r) y)) in *.
  set (sig := map snd (TLR.init_loop lstsq y X mid)) in *.
  assert (Hmid : List.length mid = List.length y)
    by (unfold mid; now rewrite !length_map).
  assert (Hlen : List.length (TLR.init_loop lstsq y X mid) = List.length y)
    by now apply init_loop_length.
  assert (Hentry : nth i sig (NpFloat NaN) = PyInt 1).
  { unfold sig.
    rewrite (nth_indep _ (NpFloat NaN) (snd (@nil scalar, NpFloat NaN)))
      by (rewrite length_map; lia).
    rewrite map_nth, init_loop_nth by assumption.
    apply init_element_no_interior.
    unfold mid.
    rewrite (nth_indep _ [] (TLR.mid_z (TLR.indicator l r [])))
      by (rewrite !length_map; lia).
    rewrite !map_nth. exact Hsel. }
  unfold torch_tensor_of in Hinit.
  destruct sig as [|p sig'] eqn:Es.
  - exfalso. assert (List.length (@nil pynum) = List.length y) as Hn.
    { rewrite <- Es. unfold sig. now rewrite length_map. }
    cbn in Hn. lia.
  - destruct (forallb is_pyint (p :: sig')) eqn:Ef; cbn in Hinit;
      [discriminate|].
    injection Hinit as <-. cbn [TLR.init_sigma TLR.sigma].
    split; [exact Hentry|].
    rewrite (nth_indep _ NaN (pynum_float (NpFloat NaN))).
    + change (pynum_float p :: map pynum_float sig')
        with (map pynum_float (p :: sig')).
      rewrite map_nth, Hentry. reflexivity.
    + change (pynum_float p :: map pynum_float sig')
        with (map pynum_float (p :: sig')).
      rewrite length_map.
      assert (List.length (p :: sig') = List.length y) as Hn.
      { rewrite <- Es. unfold sig. now rewrite length_map. }
      lia.
Qed.

Lemma init_mixed_batch :
  exists m,
    TLR.init lstsq_zero [[Fin 1]; [Fin 0]] [[[Fin 1]]; [[Fin 1]]] "cpu"
      (Some (Fin 0)) None = Ok m.
Proof.
  unfold TLR.init, TLR.indicator, TLR.mid_z, where_1_0, fill.
  cbn. rdec. cbn. rdec. cbn.
  eexists. reflexivity.
Qed.

Lemma init_sigma_fallback_witness :
  exists m,
    TLR.init lstsq_zero [[Fin 1]; [Fin 0]] [[[Fin 1]]; [[Fin 1]]] "cpu"
      (Some (Fin 0)) None = Ok m
    /\ nth 1 (TLR.init_sigma m) (NpFloat NaN) = PyInt 1
    /\ nth 1 (TLR.sigma m) NaN = Fin 1.
Proof.
  destruct init_mixed_batch as [m Hm]. exists m. split; [exact Hm|].
  apply (init_sigma_fallback lstsq_zero [[Fin 1]; [Fin 0]]
           [[[Fin 1]]; [[Fin 1]]] "cpu" (Some (Fin 0)) None m 1%nat
           eq_refl Hm).
  - cbn. lia.
  - unfold TLR.indicator, TLR.mid_z, where_1_0, fill. cbn. rdec. cbn.
    rdec. reflexivity.
Defined.

(** ** More on the model's evaluation *)











(** ** More on the estimation loop *)

Lemma xlt_false_xle (a b : scalar) :
  xisnan a = false -> xisnan b = false -> xlt a b = false -> xle b a = true.
Proof.
  destruct a, b; cbn; try congruence.
  intros _ _ H. apply Rleb_true. unfold Rltb in H.
  destruct (Rlt_dec r r0); [discriminate | lra].
Qed.

Lemma xle_trans (a b c : scalar) :
  xle a b = true -> xle b c = true -> xle a c = true.
Proof.
  destruct a, b, c; cbn; try congruence.
  rewrite !Rleb_spec. lra.
Qed.

Section LoopFacts.

Variable optimizer : Type.
Variable optimizer_step :
  optimizer -> TLR.t -> optimizer * (list tensor * tensor).
Variable y : list tensor.
Variable tol : scalar.
Variable m : TLR.t.
Variable o : optimizer.

(** The state after [k] passes, and the loss measured in pass [k]. *)
Let st (k : nat) : Driver.state optimizer :=
  Driver.after optimizer_step y tol k (Driver.start m o).
Let loss (k : nat) : scalar := Driver.loss_of y (Driver.solver (st k)).

Lemma st_succ (k : nat) : st (S k) = Driver.step optimizer_step y tol (st k).
Proof. reflexivity. Qed.

Lemma body_fields (s : Driver.state optimizer) :
  let s' := Driver.body optimizer_step y tol s in
  let l := Driver.loss_of y (Driver.solver s) in
  Driver.best_beta s'
  = (if xlt l (Driver.best_loss s) then Some (Driver.iteration s)
     else Driver.best_beta s)
  /\ Driver.status s'
     = (if xle (xabs (xsub l (Driver.prev_loss s))) tol
        then Driver.CONVERGED else Driver.ITERATING)
  /\ (Driver.status s' = Driver.ITERATING ->
      Driver.iteration s' = S (Driver.iteration s)
      /\ Driver.prev_loss s' = l).
Proof.
  cbn zeta. unfold Driver.body.
  destruct (optimizer_step (Driver.opt s) (Driver.solver s)) as [o' p].
  destruct (xlt _ (Driver.best_loss s)); destruct (xle _ tol); cbn;
    repeat split; try reflexivity; discriminate.
Qed.

Lemma st_best_loss_le (k : nat) :
  xle (Driver.best_loss (st (S k))) (Driver.best_loss (st k)) = true.
Proof.
  pose proof (after_best_loss_not_nan optimizer optimizer_step y tol k m o)
    as Hnan.
  fold (st k) in Hnan.
  rewrite st_succ. unfold Driver.step.
  destruct (Driver.status (st k)); [|now apply xle_refl].
  rewrite body_best_loss.
  destruct (xlt _ _) eqn:E; [now apply xlt_xle | now apply xle_refl].
Qed.

Lemma st_best_loss_mono (j k : nat) :
  (j <= k)%nat ->
  xle (Driver.best_loss (st k)) (Driver.best_loss (st j)) = true.
Proof.
  induction 1 as [|k Hle IH].
  - apply xle_refl.
    apply (after_best_loss_not_nan optimizer optimizer_step y tol j m o).
  - eapply xle_trans; [apply st_best_loss_le | exact IH].
Qed.

(** The recorded [best_loss] is a lower bound of every loss examined so
    far that is not NaN. *)
Theorem best_loss_below_examined_losses (j k : nat) :
  (j < k)%nat ->
  Driver.status (st j) = Driver.ITERATING ->
  xisnan (loss j) = false ->
  xle (Driver.best_loss (st k)) (loss j) = true.
Proof.
  intros Hjk Hrun Hnan.
  apply xle_trans with (Driver.best_loss (st (S j)));
    [apply st_best_loss_mono; lia|].
  rewrite st_succ. unfold Driver.step. rewrite Hrun, body_best_loss.
  fold (loss j).
  destruct (xlt (loss j) (Driver.best_loss (st j))) eqn:E.
  - now apply xle_refl.
  - apply xlt_false_xle; [assumption | | assumption].
    apply (after_best_loss_not_nan optimizer optimizer_step y tol j m o).
Qed.

Lemma st_snapshot_invariant (k : nat) :
  (Driver.best_beta (st k) = None /\ Driver.best_loss (st k) = PInf)
  \/ (exists j, Driver.best_beta (st k) = Some j
                /\ xlt (Driver.best_loss (st k)) PInf = true).
Proof.
  induction k as [|k IH]; [left; split; reflexivity|].
  rewrite st_succ. unfold Driver.step.
  destruct (Driver.status (st k)); [|exact IH].
  destruct (body_fields (st k)) as [Hb _]. cbn zeta in Hb.
  rewrite Hb, body_best_loss.
  destruct (xlt (Driver.loss_of y (Driver.solver (st k)))
              (Driver.best_loss (st k))) eqn:E; [|exact IH].
  right. exists (Driver.iteration (st k)). split; [reflexivity|].
  destruct (Driver.loss_of y (Driver.solver (st k))),
    (Driver.best_loss (st k)); cbn in *; congruence.
Qed.

(** No snapshot has been taken ([best_beta] is still [None], which is
    then what [torch_TLR] returns) exactly when [best_loss] is still
    [+inf], i.e. when no loss below [+inf] was examined. *)
Theorem best_beta_none_iff (k : nat) :
  Driver.best_beta (st k) = None <-> Driver.best_loss (st k) = PInf.
Proof.
  destruct (st_snapshot_invariant k) as [[Hb Hl] | [j [Hb Hl]]].
  - now split.
  - split; intros H.
    + congruence.
    + rewrite H in Hl. discriminate.
Qed.

Lemma st_iteration (k : nat) :
  Driver.status (st k) = Driver.ITERATING -> Driver.iteration (st k) = k.
Proof.
  induction k as [|k IH]; [reflexivity|].
  rewrite st_succ. unfold Driver.step.
  destruct (Driver.status (st k)) eqn:Hs; [|congruence].
  intros Hrun. destruct (body_fields (st k)) as (_ & _ & Hit).
  cbn zeta in Hit. destruct (Hit Hrun) as [-> _]. now rewrite IH.
Qed.

(** When a snapshot was taken in pass [j], that pass was run and
    [best_loss] is the loss measured at its start, on the parameters as
    they were before its optimizer step. *)
Theorem best_loss_is_loss_of_snapshot_pass (j k : nat) :
  Driver.best_beta (st k) = Some j ->
  (j < k)%nat
  /\ Driver.status (st j) = Driver.ITERATING
  /\ Driver.best_loss (st k) = loss j.
Proof.
  revert j. induction k as [|k IH]; intros j; [discriminate|].
  rewrite st_succ. unfold Driver.step.
  destruct (Driver.status (st k)) eqn:Hs.
  - destruct (body_fields (st k)) as [Hb _]. cbn zeta in Hb.
    rewrite Hb, body_best_loss.
    destruct (xlt (Driver.loss_of y (Driver.solver (st k)))
                (Driver.best_loss (st k))) eqn:E.
    + rewrite (st_iteration k Hs). intros [= <-].
      repeat split; [lia | assumption].
    + intros H. destruct (IH j H) as (Hlt & Hrun & Hl).
      repeat split; [lia | assumption | assumption].
  - intros H. destruct (IH j H) as (Hlt & Hrun & Hl).
    repeat split; [lia | assumption | assumption].
Qed.

(** A pass does not stop the loop when its loss is NaN, when the previous
    loss is NaN, or when the previous loss is [+inf] (as in the first
    pass) and [tol] is not [+inf]; the loss then becomes the previous
    loss of the next pass. *)
Theorem loop_continues (k : nat) :
  Driver.status (st k) = Driver.ITERATING ->
  xisnan (loss k) = true
  \/ xisnan (Driver.prev_loss (st k)) = true
  \/ (Driver.prev_loss (st k) = PInf /\ xeq tol PInf = false) ->
  Driver.status (st (S k)) = Driver.ITERATING
  /\ Driver.prev_loss (st (S k)) = loss k.
Proof.
  intros Hrun Hcase.
  rewrite st_succ. unfold Driver.step. rewrite Hrun.
  destruct (body_fields (st k)) as (_ & Hst & Hit). cbn zeta in Hst, Hit.
  fold (loss k) in Hst, Hit.
  assert (Hno : xle (xabs (xsub (loss k) (Driver.prev_loss (st k)))) tol
                = false).
  { destruct Hcase as [H | [H | [H1 H2]]].
    - destruct (loss k); try discriminate. reflexivity.
    - destruct (Driver.prev_loss (st k)); try discriminate.
      now destruct (loss k).
    - rewrite H1. destruct (loss k), tol; cbn in *; congruence. }
  rewrite Hno in Hst. split; [exact Hst|]. now apply Hit.
Qed.

End LoopFacts.

Lemma loss_of_example :
  Driver.loss_of [[Fin 1; Fin 1]] solver_example
  = Fin (-1 * (0 + (0 + example_log_density + example_log_density)) / 1).
Proof.
  unfold Driver.loss_of. rewrite forward_example. cbn. rdec. reflexivity.
Qed.

Lemma best_loss_below_examined_losses_witness :
  xle (Driver.best_loss
         (Driver.after keep_params [[Fin 1; Fin 1]] (Fin (1 / 100000)) 1
            (Driver.start solver_example tt)))
      (Driver.loss_of [[Fin 1; Fin 1]]
         (Driver.solver
            (Driver.after keep_params [[Fin 1; Fin 1]] (Fin (1 / 100000)) 0
               (Driver.start solver_example tt))))
  = true.
Proof.
  apply (best_loss_below_examined_losses unit keep_params [[Fin 1; Fin 1]]
           (Fin (1 / 100000)) solver_example tt 0 1).
  - lia.
  - reflexivity.
  - change (xisnan (Driver.loss_of [[Fin 1; Fin 1]] solver_example) = false).
    now rewrite loss_of_example.
Defined.

Lemma best_beta_after_first_pass :
  Driver.best_beta
    (Driver.after keep_params [[Fin 1; Fin 1]] (Fin (1 / 100000)) 1
       (Driver.start solver_example tt))
  = Some 0%nat.
Proof.
  change (Driver.after keep_params [[Fin 1; Fin 1]] (Fin (1 / 100000)) 1
            (Driver.start solver_example tt))
    with (Driver.body keep_params [[Fin 1; Fin 1]] (Fin (1 / 100000))
            (Driver.start solver_example tt)).
  destruct (body_fields unit keep_params [[Fin 1; Fin 1]] (Fin (1 / 100000))
              (Driver.start solver_example tt)) as [Hb _].
  cbn zeta in Hb. rewrite Hb.
  change (Driver.loss_of [[Fin 1; Fin 1]]
            (Driver.solver (Driver.start solver_example tt)))
    with (Driver.loss_of [[Fin 1; Fin 1]] solver_example).
  now rewrite loss_of_example.
Qed.

Lemma best_loss_is_loss_of_snapshot_pass_witness :
  (0 < 1)%nat
  /\ Driver.status
       (Driver.after keep_params [[Fin 1; Fin 1]] (Fin (1 / 100000)) 0
          (Driver.start solver_example tt))
     = Driver.ITERATING
  /\ Driver.best_loss
       (Driver.after keep_params [[Fin 1; Fin 1]] (Fin (1 / 100000)) 1
          (Driver.start solver_example tt))
     = Driver.loss_of [[Fin 1; Fin 1]]
         (Driver.solver
            (Driver.after keep_params [[Fin 1; Fin 1]] (Fin (1 / 100000)) 0
               (Driver.start solver_example tt))).
Proof.
  exact (best_loss_is_loss_of_snapshot_pass unit keep_params
           [[Fin 1; Fin 1]] (Fin (1 / 100000)) solver_example tt 0 1
           best_beta_after_first_pass).
Defined.

Lemma loop_continues_witness :
  Driver.status
    (Driver.after keep_params [[Fin 1; Fin 1]] (Fin (1 / 100000)) 1
       (Driver.start solver_example tt))
  = Driver.ITERATING
  /\ Driver.prev_loss
       (Driver.after keep_params [[Fin 1; Fin 1]] (Fin (1 / 100000)) 1
          (Driver.start solver_example tt))
     = Driver.loss_of [[Fin 1; Fin 1]]
         (Driver.solver
            (Driver.after keep_params [[Fin 1; Fin 1]] (Fin (1 / 100000)) 0
               (Driver.start solver_example tt))).
Proof.
  apply (loop_continues unit keep_params [[Fin 1; Fin 1]]
           (Fin (1 / 100000)) solver_example tt 0).
  - reflexivity.
  - right. right. split; reflexivity.
Defined.

(** ** The driver on fully censored data, and a degenerate interval *)

Lemma no_interior_iff_all_censored (yy : tensor) :
  select (eq_1 (TLR.mid_z (TLR.indicator (Some (Fin 0)) None yy))) yy = []
  <-> Forall (fun v => xle v (Fin 0) = true) yy.
Proof.
  unfold TLR.indicator, TLR.mid_z, where_1_0, eq_1, fill.
  induction yy as [|v yy IH]; [cbn; split; constructor|].
  cbn [map zip_with select].
  destruct (xle v (Fin 0)) eqn:E.
  - cbn [xeq]. rewrite (Reqb_false (-1) 0) by lra. cbn [Z.eqb].
    rewrite IH. split.
    + intros H. now constructor.
    + intros H. now inversion H.
  - cbn [xeq]. rewrite (Reqb_true 0 0) by lra. cbn.
    split; [discriminate|]. intros H. inversion H. congruence.
Qed.

(** The model construction that [torch_TLR] performs (line 78, lower
    threshold [0], no upper threshold) raises the [RuntimeError] of
    [nn.Parameter] exactly when the batch is non-empty and every
    observation satisfies [y <= 0]; one observation above [0], or NaN,
    anywhere in the batch lets the construction succeed.  When it raises,
    [torch_TLR] raises the same error.  (What a run can raise after the
    construction is not part of the statement.) *)
Theorem torch_TLR_constructor_raises_iff
  (lstsq : list tensor -> tensor -> tensor) (optimizer : Type)
  (optimizer_new : TLR.t -> scalar -> nat -> optimizer)
  (optimizer_step : optimizer -> TLR.t -> optimizer * (list tensor * tensor))
  (y : list tensor) (X : list (list tensor)) (device : string)
  (lr : scalar) (max_iter : nat) (tol : scalar) (verbose : Z) :
  List.length X = List.length y ->
  (TLR.init lstsq y X device (Some (Fin 0)) None
   = Raise (RuntimeError requires_grad_message)
   <-> y <> [] /\ Forall (Forall (fun v => xle v (Fin 0) = true)) y)
  /\ (y <> [] -> Forall (Forall (fun v => xle v (Fin 0) = true)) y ->
      Driver.torch_TLR lstsq optimizer_new optimizer_step
        y X device lr max_iter tol verbose
      = Raise (RuntimeError requires_grad_message)).
Proof.
  intros HX.
  destruct (init_raises_characterised lstsq y X device (Some (Fin 0)) None HX)
    as [Hiff _].
  assert (Hall :
    Forall (fun yy =>
              select (eq_1 (TLR.mid_z
                              (TLR.indicator (Some (Fin 0)) None yy))) yy
              = []) y
    <-> Forall (Forall (fun v => xle v (Fin 0) = true)) y).
  { rewrite !Forall_forall. split; intros H yy Hin;
      apply no_interior_iff_all_censored; now apply H. }
  rewrite <- Hall. split; [exact Hiff|].
  intros Hy Hcens. unfold Driver.torch_TLR.
  assert (Hraise : TLR.init lstsq y X device (Some (Fin 0)) None
                   = Raise (RuntimeError requires_grad_message))
    by (apply Hiff; now split).
  now rewrite Hraise.
Qed.

Lemma torch_TLR_constructor_raises_iff_witness :
  (TLR.init lstsq_zero [[Fin 0; Fin (-2)]] [[[Fin 1]; [Fin 1]]] "cpu"
     (Some (Fin 0)) None
   = Raise (RuntimeError requires_grad_message)
   <-> [[Fin 0; Fin (-2)]] <> []
       /\ Forall (Forall (fun v => xle v (Fin 0) = true))
            [[Fin 0; Fin (-2)]])
  /\ ([[Fin 0; Fin (-2)]] <> [] ->
      Forall (Forall (fun v => xle v (Fin 0) = true)) [[Fin 0; Fin (-2)]] ->
      Driver.torch_TLR lstsq_zero (fun _ _ _ => tt) keep_params
        [[Fin 0; Fin (-2)]] [[[Fin 1]; [Fin 1]]] "cpu" (Fin (1 / 10)) 3
        (Fin (1 / 100000)) (-1)
      = Raise (RuntimeError requires_grad_message)).
Proof.
  exact (torch_TLR_constructor_raises_iff lstsq_zero unit (fun _ _ _ => tt)
           keep_params [[Fin 0; Fin (-2)]] [[[Fin 1]; [Fin 1]]] "cpu"
           (Fin (1 / 10)) 3 (Fin (1 / 100000)) (-1) eq_refl).
Defined.


